(** * Password composition policies (PCP): model and properties

    A shallow embedding of [pcp_data.ts] (the policy data model, its
    serializer and its validator) and of the password checker
    ([check_password], [check_password_against_rule]).

    Modelling conventions.
    - A JavaScript string is the list of its UTF-16 code units
      ([jsstring]); [.length] is the length of that list, and iterating a
      string ([for (const char of s)], [new Set(s)]) walks it by code
      points, a surrogate pair making one character ([chars_of]).
    - A [Set] is the list of its elements in insertion order, without
      repetition; [.size] is the length of the list.
    - A plain object used as a dictionary (the charset table, the
      [charset_requirements] of a rule) is the association list of its
      own properties in enumeration order; property names are distinct
      and are ordinary names (not members of [Object.prototype], not
      integer indices).
    - A number ([number]) is an integer that a double holds, an
      infinity or [NaN]; fractions are not modelled.  Comparisons with
      [NaN] are false, [0] and [NaN] are falsy, and the sum of the
      validator is rounded to the nearest double.  Lengths, sizes and
      counts are integers ([Z]).
    - An optional field is an [option]; [undefined] is [None].
    - [throw new RangeError(...)] is a [Throw] carrying a value that
      names the throw site and the path of the offending object. *)

From Stdlib Require Import String Ascii List ZArith Bool Lia.
Import ListNotations.
Local Open Scope Z_scope.

(** ** Strings *)

Definition jsstring := list N.

Definition js (s : string) : jsstring :=
  map N_of_ascii (list_ascii_of_string s).

Fixpoint str_eqb (a b : jsstring) : bool :=
  match a, b with
  | [], [] => true
  | x :: a', y :: b' => N.eqb x y && str_eqb a' b'
  | _, _ => false
  end.

Definition is_high_surrogate (u : N) : bool :=
  (N.leb 55296 u && N.leb u 56319)%N.

Definition is_low_surrogate (u : N) : bool :=
  (N.leb 56320 u && N.leb u 57343)%N.

(** The string iterator: one character per code point. *)
Fixpoint chars_of (s : jsstring) : list jsstring :=
  match s with
  | [] => []
  | a :: rest =>
      match rest with
      | b :: rest' =>
          if is_high_surrogate a && is_low_surrogate b
          then [a; b] :: chars_of rest'
          else [a] :: chars_of rest
      | [] => [[a]]
      end
  end.

(** [s.length] *)
Definition js_length (s : jsstring) : Z := Z.of_nat (length s).

(** [p] is a prefix of [s]. *)
Fixpoint starts_with (s p : jsstring) : bool :=
  match p with
  | [] => true
  | y :: p' =>
      match s with
      | x :: s' => N.eqb x y && starts_with s' p'
      | [] => false
      end
  end.

(** [password.includes(s)] *)
Fixpoint includes (password s : jsstring) : bool :=
  starts_with password s ||
  match password with
  | [] => false
  | _ :: rest => includes rest s
  end.

(** ** Sets *)

Section Sets.
Context {A : Type} (eqb : A -> A -> bool).

(** [s.has(x)] *)
Definition has (s : list A) (x : A) : bool := existsb (eqb x) s.

(** [new Set(iterable)] *)
Definition new_Set (l : list A) : list A :=
  fold_left (fun acc x => if has acc x then acc else acc ++ [x]) l [].

(** [s.size] *)
Definition size (s : list A) : Z := Z.of_nat (length s).

(** Both [areSetsEqual] and [isSubset] start with a test of reference
    equality; on one and the same set the code after that test returns
    [true] as well, so the test is not modelled apart. *)
Definition areSetsEqual (first second : list A) : bool :=
  if negb (size first =? size second) then false
  else forallb (has second) first.

Definition isSubset (subset superset : list A) : bool :=
  if size subset >? size superset then false
  else forallb (has superset) subset.

Definition hasSetIntersection (first second : list A) : bool :=
  existsb (has second) first.

Definition getSetIntersection (first second : list A) : list A :=
  filter (has second) first.
End Sets.

(** [new Set(s)] for a string [s]: the set of its characters. *)
Definition Set_of_string (s : jsstring) : list jsstring :=
  new_Set str_eqb (chars_of s).

(** ** Dictionaries *)

Section Dict.
Context {V : Type}.

(** [obj[key]] *)
Fixpoint get (obj : list (jsstring * V)) (key : jsstring) : option V :=
  match obj with
  | [] => None
  | (k, v) :: rest => if str_eqb k key then Some v else get rest key
  end.

(** [key in obj] *)
Definition key_in (key : jsstring) (obj : list (jsstring * V)) : bool :=
  existsb (fun kv => str_eqb (fst kv) key) obj.

(** [Object.keys(obj)] *)
Definition keys (obj : list (jsstring * V)) : list jsstring :=
  map fst obj.

(** [obj[key] = v]: an existing property keeps its place, a new one
    goes last. *)
Fixpoint set (obj : list (jsstring * V)) (key : jsstring) (v : V)
  : list (jsstring * V) :=
  match obj with
  | [] => [(key, v)]
  | (k, w) :: rest =>
      if str_eqb k key then (k, v) :: rest else (k, w) :: set rest key v
  end.

(** [delete obj[key]] *)
Definition delete (obj : list (jsstring * V)) (key : jsstring)
  : list (jsstring * V) :=
  filter (fun kv => negb (str_eqb (fst kv) key)) obj.
End Dict.

(** ** Numbers *)

Inductive number :=
| Fin (z : Z)
| PosInf
| NegInf
| NaN.

Coercion Fin : Z >-> number.

Declare Scope number_scope.
Delimit Scope number_scope with num.
Bind Scope number_scope with number.

(** [a < b] *)
Definition number_ltb (a b : number) : bool :=
  match a, b with
  | Fin x, Fin y => x <? y
  | Fin _, PosInf => true
  | NegInf, Fin _ => true
  | NegInf, PosInf => true
  | _, _ => false
  end.

(** [a <= b] *)
Definition number_leb (a b : number) : bool :=
  match a, b with
  | Fin x, Fin y => x <=? y
  | Fin _, PosInf => true
  | NegInf, Fin _ => true
  | NegInf, PosInf => true
  | PosInf, PosInf => true
  | NegInf, NegInf => true
  | _, _ => false
  end.

(** [a == b] *)
Definition number_eqb (a b : number) : bool :=
  match a, b with
  | Fin x, Fin y => x =? y
  | PosInf, PosInf => true
  | NegInf, NegInf => true
  | _, _ => false
  end.

(** The equality of the elements of a [Set]: [NaN] is the same as
    [NaN]. *)
Definition same_value_zero (a b : number) : bool :=
  match a, b with
  | NaN, NaN => true
  | _, _ => number_eqb a b
  end.

(** The truth value of a number. *)
Definition number_truthy (a : number) : bool :=
  match a with
  | Fin z => negb (z =? 0)
  | NaN => false
  | _ => true
  end.

(** The double nearest to an integer, ties to the even significand: up
    to [2^53] the integer itself, beyond it a multiple of a power of
    two with 53 significant bits, and an infinity from [2^1024] on. *)
Definition round_to_double (z : Z) : number :=
  let a := Z.abs z in
  if a <=? 2 ^ 53 then Fin z
  else
    let e := Z.log2 a - 52 in
    let q := Z.shiftr a e in
    let r := a - Z.shiftl q e in
    let half := Z.shiftl 1 (e - 1) in
    let q' :=
      if r <? half then q
      else if half <? r then q + 1
      else if Z.even q then q else q + 1 in
    let v := Z.shiftl q' e in
    if 2 ^ 1024 <=? v then (if z <? 0 then NegInf else PosInf)
    else Fin (Z.sgn z * v).

(** [a + b] *)
Definition number_add (a b : number) : number :=
  match a, b with
  | Fin x, Fin y => round_to_double (x + y)
  | NaN, _ | _, NaN => NaN
  | PosInf, NegInf | NegInf, PosInf => NaN
  | PosInf, _ | _, PosInf => PosInf
  | NegInf, _ | _, NegInf => NegInf
  end.

(** [- a] *)
Definition number_opp (a : number) : number :=
  match a with
  | Fin z => Fin (- z)
  | PosInf => NegInf
  | NegInf => PosInf
  | NaN => NaN
  end.

Notation "a <? b" := (number_ltb a b) : number_scope.
Notation "a <=? b" := (number_leb a b) : number_scope.
Notation "a >? b" := (number_ltb b a) (only parsing) : number_scope.
Notation "a >=? b" := (number_leb b a) (only parsing) : number_scope.
Notation "a =? b" := (number_eqb a b) : number_scope.
Notation "a + b" := (number_add a b) : number_scope.
Notation "- a" := (number_opp a) : number_scope.

(** ** Exceptions *)

Inductive result (E A : Type) : Type :=
| Ok (a : A)
| Throw (e : E).
Arguments Ok {E A} a.
Arguments Throw {E A} e.

(** [if (c) throw e;] *)
Definition throw_if {E} (c : bool) (e : E) : result E unit :=
  if c then Throw e else Ok tt.

Notation "a ;; b" :=
  (match a with Ok _ => b | Throw e => Throw e end)
  (at level 61, right associativity).

(** [for (const x of l) body(x)] where the body may throw. *)
Fixpoint for_each {E A} (body : A -> result E unit) (l : list A)
  : result E unit :=
  match l with
  | [] => Ok tt
  | x :: rest => body x ;; for_each body rest
  end.

(** The same loop with the index of the element. *)
Fixpoint for_each_i {E A} (body : nat -> A -> result E unit) (i : nat)
  (l : list A) : result E unit :=
  match l with
  | [] => Ok tt
  | x :: rest => body i x ;; for_each_i body (S i) rest
  end.

(** Run [a] inside an object whose path is added to what it throws. *)
Definition within {E F A} (path : E -> F) (a : result E A) : result F A :=
  match a with Ok x => Ok x | Throw e => Throw (path e) end.

(** [o && p(o)] for an optional number: [undefined], [0] and [NaN] are
    falsy. *)
Definition when_set (o : option number) (p : number -> bool) : bool :=
  match o with
  | Some v => number_truthy v && p v
  | None => false
  end.

(** ** JSON

    [stringify] ends in [JSON.stringify] and [parse] starts with
    [JSON.parse].  The text is represented by the JSON value it denotes:
    [JSON.stringify] leaves out the properties whose value is [undefined]
    ([object] below) and writes [null] for a number that is not finite
    ([number_to_json]), and [JSON.parse] gives back the value that was
    written.  A number in JSON is an integer, and [JSON.parse] reads it
    as the nearest double ([round_to_double]). *)

Local Set Warnings "-register-all".
Inductive json :=
| JNull
| JBool (b : bool)
| JNumber (z : Z)
| JString (s : jsstring)
| JArray (l : list json)
| JObject (l : list (jsstring * json)).

(** An object literal some of whose properties may be [undefined]. *)
Definition object (fields : list (jsstring * option json)) : json :=
  JObject
    (flat_map
       (fun kv =>
          match snd kv with
          | Some v => [(fst kv, v)]
          | None => []
          end)
       fields).

(** What [JSON.stringify] writes for a number. *)
Definition number_to_json (value : number) : json :=
  match value with
  | Fin z => JNumber z
  | _ => JNull
  end.

(** [to_json] treats a property by the kind of its value.  A number or
    [undefined] is copied. *)
Definition to_json_number (value : option number) : option json :=
  option_map number_to_json value.

(** A non-empty [Set] becomes the array of its elements; an empty [Set]
    is an [Object] without enumerable properties, and [to_json] of it is
    the empty object. *)
Definition to_json_set {A} (element : A -> json) (value : option (list A))
  : option json :=
  match value with
  | Some s =>
      if size s >? 0 then Some (JArray (map element s))
      else Some (JObject [])
  | None => None
  end.

(** The truth value of a JSON value. *)
Definition truthy (v : json) : bool :=
  match v with
  | JNull => false
  | JBool b => b
  | JNumber z => negb (z =? 0)
  | JString s => negb (js_length s =? 0)
  | JArray _ => true
  | JObject _ => true
  end.

(** ["key" in data && data["key"]]: the value when the test holds. *)
Definition present (data : list (jsstring * json)) (key : jsstring)
  : option json :=
  match get data key with
  | Some v => if truthy v then Some v else None
  | None => None
  end.

(** In the functions that read JSON, [None] stands for a payload that
    is not of the shape the declared types describe; what the code does
    with such a payload (it may throw a [TypeError], or go on with values
    of other types) is not modelled. *)

Fixpoint strings_of (l : list json) : option (list jsstring) :=
  match l with
  | [] => Some []
  | JString s :: rest => option_map (cons s) (strings_of rest)
  | _ :: _ => None
  end.

Fixpoint numbers_of (l : list json) : option (list number) :=
  match l with
  | [] => Some []
  | JNumber z :: rest =>
      option_map (cons (round_to_double z)) (numbers_of rest)
  | _ :: _ => None
  end.

(** [new Set(v)] as a [Set<string>]. *)
Definition Set_of_strings (v : json) : option (list jsstring) :=
  match v with
  | JArray l => option_map (new_Set str_eqb) (strings_of l)
  | JString s => Some (Set_of_string s)
  | _ => None
  end.

(** [new Set(v)] as a [Set<number>]. *)
Definition Set_of_numbers (v : json) : option (list number) :=
  match v with
  | JArray l => option_map (new_Set same_value_zero) (numbers_of l)
  | _ => None
  end.

(** [data[key]] as an optional number. *)
Definition optional_number (data : list (jsstring * json)) (key : jsstring)
  : option (option number) :=
  match get data key with
  | None => Some None
  | Some (JNumber z) => Some (Some (round_to_double z))
  | Some _ => None
  end.

(** An optional [Set] read under the guard ["key" in data && data[key]]. *)
Definition optional_set {A} (read : json -> option (list A))
  (data : list (jsstring * json)) (key : jsstring)
  : option (option (list A)) :=
  match present data key with
  | Some v => option_map Some (read v)
  | None => Some None
  end.

Notation "'let?' x ':=' a 'in' b" :=
  (match a with Some x => b | None => None end)
  (at level 10, x pattern, a at level 100, b at level 200).

(** ** PCPCharsetRequirement *)

Module PCPCharsetRequirement.
Record t := mk {
  min_required : option number;
  max_allowed : option number;
  max_consecutive : option number;
  required_locations : option (list number);
  prohibited_locations : option (list number)
}.

Definition _from_json (data : json)
  : option t :=
  match data with
  | JObject data =>
      let? required_locations :=
        optional_set Set_of_numbers data (js "required_locations") in
      let? prohibited_locations :=
        optional_set Set_of_numbers data (js "prohibited_locations") in
      let? min_required := optional_number data (js "min_required") in
      let? max_allowed := optional_number data (js "max_allowed") in
      let? max_consecutive := optional_number data (js "max_consecutive") in
      Some (mk min_required max_allowed max_consecutive
              required_locations prohibited_locations)
  | _ => None
  end.

Inductive error :=
| MinRequiredLessThan1
| MaxAllowedLessThan1
| MaxConsecutiveLessThan1
| LocationNotGuaranteed
| LocationsOverlap
| MaxAllowedLessThanMinRequired
| RequiredLocationsMoreThanMaxAllowed.

(** The test of the loop over [required_locations]. *)
Definition location_rejected (min_length location : number) : bool :=
  (((location >=? 0) && (location >=? min_length)) ||
   ((location <? 0) && (- location + 1 >=? min_length)))%num.

Definition _validate (this : t) (min_length : number)
  : result error unit :=
  throw_if (when_set (min_required this) (fun v => (v <? 1)%num))
    MinRequiredLessThan1 ;;
  throw_if (when_set (max_allowed this) (fun v => (v <? 1)%num))
    MaxAllowedLessThan1 ;;
  throw_if (when_set (max_consecutive this) (fun v => (v <? 1)%num))
    MaxConsecutiveLessThan1 ;;
  match required_locations this with
  | Some locations =>
      for_each
        (fun location =>
           throw_if (location_rejected min_length location)
             LocationNotGuaranteed)
        locations
  | None => Ok tt
  end ;;
  throw_if
    match required_locations this, prohibited_locations this with
    | Some req, Some pro => existsb (has same_value_zero pro) req
    | _, _ => false
    end
    LocationsOverlap ;;
  match max_allowed this with
  | Some m =>
      if number_truthy m then
        throw_if (when_set (min_required this) (fun r => (m <? r)%num))
          MaxAllowedLessThanMinRequired ;;
        throw_if
          match required_locations this with
          | Some req => (size req >? m)%num
          | None => false
          end
          RequiredLocationsMoreThanMaxAllowed
      else Ok tt
  | None => Ok tt
  end.
End PCPCharsetRequirement.

(** ** PCPSubsetRequirement *)

Module PCPSubsetRequirement.
Record t := mk {
  count : number;
  options : option (list jsstring)
}.

(** The set of options is read from the property [required_locations] of
    the subset requirement; [new Set(undefined)] and [new Set(null)] are
    empty. *)
Definition _from_json (data : json)
  : option t :=
  match data with
  | JObject data =>
      let? options :=
        match present data (js "options") with
        | Some _ =>
            match get data (js "required_locations") with
            | None | Some JNull => Some (Some [])
            | Some v => option_map Some (Set_of_strings v)
            end
        | None => Some None
        end in
      match get data (js "count") with
      | Some (JNumber count) => Some (mk (round_to_double count) options)
      | _ => None
      end
  | _ => None
  end.

Inductive error :=
| CountLessThan1
| OptionsFewerThanTwo
| OptionsInvalid (invalid : list jsstring)
| CountNotLessThanOptions
| CountNotLessThanCharsets.

Definition _validate (this : t) (charsets : list jsstring)
  : result error unit :=
  throw_if (count this <? 1)%num CountLessThan1 ;;
  match options this with
  | Some opts =>
      throw_if (size opts <? 2) OptionsFewerThanTwo ;;
      throw_if (existsb (fun x => negb (has str_eqb charsets x)) opts)
        (OptionsInvalid
           (filter (fun x => negb (has str_eqb charsets x)) opts)) ;;
      throw_if (count this >=? size opts)%num CountNotLessThanOptions
  | None =>
      throw_if (count this >=? size charsets)%num CountNotLessThanCharsets
  end.
End PCPSubsetRequirement.

(** ** PCPRule *)

Module PCPRule.
Record t := mk {
  min_length : number;
  max_length : option number;
  max_consecutive : option number;
  prohibited_substrings : option (list jsstring);
  require : option (list jsstring);
  require_subset : option PCPSubsetRequirement.t;
  charset_requirements :
    option (list (jsstring * PCPCharsetRequirement.t))
}.

(** The loop [charset_requirements[key] = _from_json(value)]. *)
Fixpoint charset_requirements_from_json (entries : list (jsstring * json))
  : option (list (jsstring * PCPCharsetRequirement.t)) :=
  match entries with
  | [] => Some []
  | (key, value) :: rest =>
      let? requirement := PCPCharsetRequirement._from_json value in
      let? others := charset_requirements_from_json rest in
      Some ((key, requirement) :: others)
  end.

Definition _from_json (data : json) : option t :=
  match data with
  | JObject data =>
      let? prohibited_substrings :=
        optional_set Set_of_strings data (js "prohibited_substrings") in
      let? require := optional_set Set_of_strings data (js "require") in
      let? require_subset :=
        match present data (js "require_subset") with
        | Some v => option_map Some (PCPSubsetRequirement._from_json v)
        | None => Some None
        end in
      let? charset_requirements :=
        match present data (js "charset_requirements") with
        | Some (JObject entries) =>
            option_map Some (charset_requirements_from_json entries)
        | Some _ => None
        | None => Some None
        end in
      let? min_length :=
        match get data (js "min_length") with
        | None | Some JNull => Some (Fin 1)
        | Some (JNumber z) => Some (round_to_double z)
        | Some _ => None
        end in
      let? max_length := optional_number data (js "max_length") in
      let? max_consecutive := optional_number data (js "max_consecutive") in
      Some (mk min_length max_length max_consecutive
              prohibited_substrings require require_subset
              charset_requirements)
  | _ => None
  end.

Inductive error :=
| MinLengthLessThan1
| MaxLengthLessThan1
| MaxLengthLessThanMinLength
| MaxConsecutiveLessThan1
| RequireInvalid (invalid : list jsstring)
| SubsetRequirement (e : PCPSubsetRequirement.error)
| CharsetRequirementName (key : jsstring)
| CharsetRequirement (key : jsstring) (e : PCPCharsetRequirement.error)
| RequireOverlapsSubset (shared : list jsstring)
| RequirementsOverlap (key : jsstring)
| MaxAllowedZero (key : jsstring).

(** [this.require ?? new Set()] *)
Definition require_charsets (this : t) : list jsstring :=
  match require this with
  | Some r => r
  | None => []
  end.

(** [this.require_subset?.options ?? charsets] *)
Definition subset_charsets (this : t) (charsets : list jsstring)
  : list jsstring :=
  match require_subset this with
  | Some rs =>
      match PCPSubsetRequirement.options rs with
      | Some opts => opts
      | None => charsets
      end
  | None => charsets
  end.

Definition _validate (this : t) (charsets : list jsstring)
  : result error unit :=
  throw_if (min_length this <? 1)%num MinLengthLessThan1 ;;
  throw_if (when_set (max_length this) (fun v => (v <? 1)%num))
    MaxLengthLessThan1 ;;
  throw_if
    (when_set (max_length this)
       (fun v =>
          number_truthy (min_length this) && (v <? min_length this)%num))
    MaxLengthLessThanMinLength ;;
  throw_if (when_set (max_consecutive this) (fun v => (v <? 1)%num))
    MaxConsecutiveLessThan1 ;;
  match require this with
  | Some r =>
      throw_if (negb (isSubset str_eqb r charsets))
        (RequireInvalid
           (filter (fun x => negb (has str_eqb charsets x)) r))
  | None => Ok tt
  end ;;
  match require_subset this with
  | Some rs =>
      within SubsetRequirement (PCPSubsetRequirement._validate rs charsets)
  | None => Ok tt
  end ;;
  match charset_requirements this with
  | Some reqs =>
      for_each
        (fun kv =>
           throw_if (negb (has str_eqb charsets (fst kv)))
             (CharsetRequirementName (fst kv)) ;;
           within (CharsetRequirement (fst kv))
             (PCPCharsetRequirement._validate (snd kv) (min_length this)))
        reqs
  | None => Ok tt
  end ;;
  throw_if
    (hasSetIntersection str_eqb (require_charsets this)
       (subset_charsets this charsets))
    (RequireOverlapsSubset
       (getSetIntersection str_eqb (require_charsets this)
          (subset_charsets this charsets))) ;;
  match charset_requirements this with
  | Some reqs =>
      for_each
        (fun kv =>
           if has str_eqb (require_charsets this) (fst kv) ||
              has str_eqb (subset_charsets this charsets) (fst kv)
           then
             throw_if
               (when_set (PCPCharsetRequirement.min_required (snd kv))
                  (fun _ => true))
               (RequirementsOverlap (fst kv)) ;;
             throw_if
               (when_set (PCPCharsetRequirement.max_allowed (snd kv))
                  (fun v => (v =? 0)%num))
               (MaxAllowedZero (fst kv))
           else Ok tt)
        reqs
  | None => Ok tt
  end.
End PCPRule.

(** ** Helper functions *)

Definition to_json_charset_requirement (obj : PCPCharsetRequirement.t)
  : json :=
  object
    [ (js "min_required",
        to_json_number (PCPCharsetRequirement.min_required obj));
      (js "max_allowed",
        to_json_number (PCPCharsetRequirement.max_allowed obj));
      (js "max_consecutive",
        to_json_number (PCPCharsetRequirement.max_consecutive obj));
      (js "required_locations",
        to_json_set number_to_json
          (PCPCharsetRequirement.required_locations obj));
      (js "prohibited_locations",
        to_json_set number_to_json
          (PCPCharsetRequirement.prohibited_locations obj)) ].

Definition to_json_subset_requirement (obj : PCPSubsetRequirement.t)
  : json :=
  object
    [ (js "count", Some (number_to_json (PCPSubsetRequirement.count obj)));
      (js "options",
        to_json_set JString (PCPSubsetRequirement.options obj)) ].

Definition to_json_rule (obj : PCPRule.t) : json :=
  object
    [ (js "min_length", Some (number_to_json (PCPRule.min_length obj)));
      (js "max_length", to_json_number (PCPRule.max_length obj));
      (js "max_consecutive", to_json_number (PCPRule.max_consecutive obj));
      (js "prohibited_substrings",
        to_json_set JString (PCPRule.prohibited_substrings obj));
      (js "require", to_json_set JString (PCPRule.require obj));
      (js "require_subset",
        option_map to_json_subset_requirement (PCPRule.require_subset obj));
      (js "charset_requirements",
        option_map
          (fun reqs =>
             JObject
               (map (fun kv => (fst kv, to_json_charset_requirement (snd kv)))
                  reqs))
          (PCPRule.charset_requirements obj)) ].

(** [first.size != second.size] on two tables.  On a plain object
    [size] is the property of that name: the charset named [size], or
    [undefined].  Two [undefined] are equal and a [Set] differs from
    [undefined].  Two [Set]s are compared by reference: that needs a
    charset named [size] in both tables, which the presets, the second
    table at every call, do not have; the model takes the two for
    different objects. *)
Definition size_differs (first second : list (jsstring * list jsstring))
  : bool :=
  match get first (js "size"), get second (js "size") with
  | None, None => false
  | _, _ => true
  end.

(** After the size test the loop runs over the entries of [second] and
    looks each of them up in [second].  The function starts with the
    test [first == second] of reference equality; [second] is a preset
    at every call, and on one and the same preset the code after that
    test returns [true] as well, so the test is not modelled apart. *)
Definition areCharsetsEqual (first second : list (jsstring * list jsstring))
  : bool :=
  if size_differs first second then false
  else
  forallb
    (fun kv =>
       negb (negb (key_in (fst kv) second) ||
             negb match get second (fst kv) with
                  | Some other => areSetsEqual str_eqb (snd kv) other
                  | None => false
                  end))
    second.

Definition uses_alphabet_charset (rules : list PCPRule.t) : bool :=
  existsb
    (fun rule =>
       match PCPRule.require rule with
       | Some r => has str_eqb r (js "alphabet")
       | None => false
       end ||
       match PCPRule.require_subset rule with
       | Some rs =>
           match PCPSubsetRequirement.options rs with
           | Some opts => has str_eqb opts (js "alphabet")
           | None => false
           end
       | None => false
       end ||
       match PCPRule.charset_requirements rule with
       | Some reqs => key_in (js "alphabet") reqs
       | None => false
       end)
    rules.

(** ** PCP *)

Definition ascii_lowercase : jsstring := js "abcdefghijklmnopqrstuvwxyz".
Definition ascii_uppercase : jsstring := js "ABCDEFGHIJKLMNOPQRSTUVWXYZ".
Definition digits : jsstring := js "0123456789".
(** The second character of [symbols] is the double quote, code 34. *)
Definition symbols : jsstring :=
  js "!" ++ [34%N] ++ js "#$%&'()*+,-./:;<=>?@[\]^_`{|}~".

Definition DEFAULT_CHARSETS : list (jsstring * list jsstring) :=
  [ (js "lower", Set_of_string ascii_lowercase);
    (js "upper", Set_of_string ascii_uppercase);
    (js "digits", Set_of_string digits);
    (js "symbols", Set_of_string symbols) ].

Definition ALPHABET_CHARSETS : list (jsstring * list jsstring) :=
  [ (js "alphabet", Set_of_string (ascii_lowercase ++ ascii_uppercase));
    (js "digits", Set_of_string digits);
    (js "symbols", Set_of_string symbols) ].

Module PCP.
Record t := mk {
  rules : list PCPRule.t;
  charsets : list (jsstring * list jsstring)
}.

(** The constructor: [charsets ?? DEFAULT_CHARSETS]. *)
Definition new (rules : list PCPRule.t)
  (charsets : option (list (jsstring * list jsstring))) : t :=
  mk rules
     match charsets with
     | Some c => c
     | None => DEFAULT_CHARSETS
     end.

Definition stringify (this : t) : json :=
  if areCharsetsEqual (charsets this) DEFAULT_CHARSETS ||
     areCharsetsEqual (charsets this) ALPHABET_CHARSETS
  then
    match rules this with
    | [rule] => to_json_rule rule
    | rules => object [(js "rules", Some (JArray (map to_json_rule rules)))]
    end
  else
    let default_charsets :=
      if key_in (js "alphabet") (charsets this) then ALPHABET_CHARSETS
      else DEFAULT_CHARSETS in
    let changed :=
      fold_left
        (fun output_charsets kv =>
           if negb (key_in (fst kv) default_charsets) ||
              negb match get default_charsets (fst kv) with
                   | Some other => areSetsEqual str_eqb (snd kv) other
                   | None => false
                   end
           then set output_charsets (fst kv) (JString (concat (snd kv)))
           else output_charsets)
        (charsets this) [] in
    let output_charsets :=
      fold_left
        (fun output_charsets name =>
           if negb (key_in name (charsets this))
           then set output_charsets name JNull
           else output_charsets)
        (keys default_charsets) changed in
    object
      [ (js "charsets", Some (JObject output_charsets));
        (js "rules", Some (JArray (map to_json_rule (rules this)))) ].

Fixpoint rules_from_json (l : list json) : option (list PCPRule.t) :=
  match l with
  | [] => Some []
  | r :: rest =>
      let? rule := PCPRule._from_json r in
      let? others := rules_from_json rest in
      Some (rule :: others)
  end.

(** The loop of [parse] over the entries of [data["charsets"]]. *)
Fixpoint apply_charsets (charsets : list (jsstring * list jsstring))
  (entries : list (jsstring * json))
  : option (list (jsstring * list jsstring)) :=
  match entries with
  | [] => Some charsets
  | (key, value) :: rest =>
      match value with
      | JNull => apply_charsets (delete charsets key) rest
      | JString s =>
          if js_length s >? 0 then apply_charsets (delete charsets key) rest
          else apply_charsets (set charsets key (Set_of_string s)) rest
      | _ => None
      end
  end.

Definition parse (data : json) : option t :=
  match data with
  | JObject data =>
      let? rules :=
        match present data (js "rules") with
        | Some (JArray l) => rules_from_json l
        | Some _ => None
        | None => option_map (fun r => [r]) (PCPRule._from_json (JObject data))
        end in
      let baseline :=
        if uses_alphabet_charset rules then ALPHABET_CHARSETS
        else DEFAULT_CHARSETS in
      let? charsets :=
        match present data (js "charsets") with
        | Some (JObject entries) => apply_charsets baseline entries
        | Some _ => None
        | None => Some baseline
        end in
      Some (new rules (Some charsets))
  | _ => None
  end.

Inductive error :=
| CharsetEmpty (key : jsstring)
| CharsetsShareCharacters (first second : jsstring)
| NoRules
| Rule (i : nat) (e : PCPRule.error).

(** The double loop over the pairs [i < j] of charsets. *)
Fixpoint check_overlap (entries : list (jsstring * list jsstring))
  : result error unit :=
  match entries with
  | [] => Ok tt
  | (key_i, value_i) :: rest =>
      for_each
        (fun kv =>
           throw_if (hasSetIntersection str_eqb value_i (snd kv))
             (CharsetsShareCharacters key_i (fst kv)))
        rest ;;
      check_overlap rest
  end.

Definition validate (this : t) : result error unit :=
  for_each
    (fun kv => throw_if (size (snd kv) =? 0) (CharsetEmpty (fst kv)))
    (charsets this) ;;
  check_overlap (charsets this) ;;
  throw_if (Z.of_nat (length (rules this)) <? 1) NoRules ;;
  for_each_i
    (fun i rule =>
       within (Rule i) (PCPRule._validate rule (keys (charsets this))))
    0%nat (rules this).
End PCP.

(** ** The checker *)

(** What an entry of [charset_mapping] or of [mapped_password] holds: a
    charset index, or [undefined]. *)
Definition jsval := option nat.

(** [a == b] on such values. *)
Definition jsval_eqb (a b : jsval) : bool :=
  match a, b with
  | Some x, Some y => Nat.eqb x y
  | None, None => true
  | _, _ => false
  end.

(** [a[i]]: [undefined] outside the array. *)
Definition at_index (a : list jsval) (i : number) : jsval :=
  match i with
  | Fin z => if z <? 0 then None else nth (Z.to_nat z) a None
  | _ => None
  end.

(** The loop [charset_mapping[charset_names[i]] = i]. *)
Fixpoint assign_indices (charset_mapping : list (jsstring * nat)) (i : nat)
  (charset_names : list jsstring) : list (jsstring * nat) :=
  match charset_names with
  | [] => charset_mapping
  | name :: rest => assign_indices (set charset_mapping name i) (S i) rest
  end.

(** The inner loop over the charsets for one character: the index pushed,
    or [None] when [found] stays false. *)
Definition classify (charsets : list (jsstring * list jsstring))
  (charset_mapping : list (jsstring * nat)) (char : jsstring)
  : option jsval :=
  match find (fun kv => has str_eqb (snd kv) char) charsets with
  | Some (name, _) => Some (get charset_mapping name)
  | None => None
  end.

(** The loop over the characters of the password; [None] is the early
    [return false]. *)
Fixpoint map_password (charsets : list (jsstring * list jsstring))
  (charset_mapping : list (jsstring * nat)) (chars : list jsstring)
  : option (list jsval) :=
  match chars with
  | [] => Some []
  | char :: rest =>
      match classify charsets charset_mapping char with
      | None => None
      | Some index =>
          match map_password charsets charset_mapping rest with
          | None => None
          | Some mapped => Some (index :: mapped)
          end
      end
  end.

(** The [max_consecutive] loop of a rule, on raw characters; [false] is
    the [return false] of the loop. *)
Fixpoint consecutive_ok (max_consecutive : number) (last_char : jsstring)
  (consecutive_count : Z) (chars : list jsstring) : bool :=
  match chars with
  | [] => true
  | char :: rest =>
      if str_eqb char last_char then
        if (Fin (consecutive_count + 1) >? max_consecutive)%num then false
        else consecutive_ok max_consecutive last_char
               (consecutive_count + 1) rest
      else consecutive_ok max_consecutive char 1 rest
  end.

(** The [max_consecutive] loop of a charset requirement, on indices. *)
Fixpoint charset_consecutive_ok (max_consecutive : number)
  (charset_index : jsval) (consecutive_count : Z)
  (mapped_password : list jsval) : bool :=
  match mapped_password with
  | [] => true
  | index :: rest =>
      if jsval_eqb index charset_index then
        if (Fin (consecutive_count + 1) >? max_consecutive)%num then false
        else charset_consecutive_ok max_consecutive charset_index
               (consecutive_count + 1) rest
      else charset_consecutive_ok max_consecutive charset_index 0 rest
  end.

(** [password.length + location].  A string is shorter than [2^53]
    units and both loops add a location that is not positive, so the sum
    is the exact one down to [-2^53]; below, the double nearest to the
    sum is negative like the sum, and the index is outside the array
    either way.  The model keeps the exact sum. *)
Definition length_plus (password : jsstring) (location : number) : number :=
  match location with
  | Fin z => Fin (js_length password + z)
  | _ => location
  end.

(** The test of the loop over [required_locations]. *)
Definition required_location_fails (password : jsstring)
  (mapped_password : list jsval) (charset_index : jsval)
  (location : number) : bool :=
  ((location >=? 0)%num &&
   negb (jsval_eqb (at_index mapped_password location) charset_index)) ||
  ((location <=? 0)%num &&
   negb (jsval_eqb
           (at_index mapped_password (length_plus password location))
           charset_index)).

(** The test of the loop over [prohibited_locations]. *)
Definition prohibited_location_fails (password : jsstring)
  (mapped_password : list jsval) (charset_index : jsval)
  (location : number) : bool :=
  let corrected_location :=
    if (location >=? 0)%num then location
    else length_plus password location in
  (corrected_location >=? 0)%num &&
  (js_length password >? corrected_location)%num &&
  jsval_eqb (at_index mapped_password corrected_location) charset_index.

(** The body of the loop over [charset_requirements]: [false] when it
    returns false, [true] when it runs to its end. *)
Definition check_charset_requirement (password : jsstring)
  (charset_mapping : list (jsstring * nat)) (mapped_password : list jsval)
  (charset : jsstring) (requirements : PCPCharsetRequirement.t) : bool :=
  let charset_index := get charset_mapping charset in
  let charset_count :=
    size (filter (fun c => jsval_eqb c charset_index) mapped_password) in
  if when_set (PCPCharsetRequirement.min_required requirements)
       (fun v => (charset_count <? v)%num) then false
  else if when_set (PCPCharsetRequirement.max_allowed requirements)
            (fun v => (charset_count >? v)%num) then false
  else if match PCPCharsetRequirement.max_consecutive requirements with
          | Some m =>
              number_truthy m &&
              negb (charset_consecutive_ok m charset_index 0 mapped_password)
          | None => false
          end then false
  else if match PCPCharsetRequirement.required_locations requirements with
          | Some locations =>
              existsb
                (required_location_fails password mapped_password
                   charset_index)
                locations
          | None => false
          end then false
  else if match PCPCharsetRequirement.prohibited_locations requirements with
          | Some locations =>
              existsb
                (prohibited_location_fails password mapped_password
                   charset_index)
                locations
          | None => false
          end then false
  else true.

Definition check_password_against_rule (password : jsstring)
  (rule : PCPRule.t) (charset_mapping : list (jsstring * nat))
  (mapped_password : list jsval) : bool :=
  if (js_length password <? PCPRule.min_length rule)%num then false
  else if when_set (PCPRule.max_length rule)
            (fun v => (js_length password >? v)%num) then false
  else if match PCPRule.max_consecutive rule with
          | Some m =>
              number_truthy m &&
              negb (consecutive_ok m [] 0 (chars_of password))
          | None => false
          end then false
  else if match PCPRule.prohibited_substrings rule with
          | Some subs => existsb (includes password) subs
          | None => false
          end then false
  else if match PCPRule.require rule with
          | Some req =>
              existsb
                (fun r =>
                   negb (has jsval_eqb mapped_password
                           (get charset_mapping r)))
                req
          | None => false
          end then false
  else if match PCPRule.require_subset rule with
          | Some rs =>
              let options :=
                match PCPSubsetRequirement.options rs with
                | Some opts => map (get charset_mapping) opts
                | None => map (fun kv => Some (snd kv)) charset_mapping
                end in
              (size (filter (has jsval_eqb mapped_password) options)
                 <? PCPSubsetRequirement.count rs)%num
          | None => false
          end then false
  else match PCPRule.charset_requirements rule with
       | Some reqs =>
           forallb
             (fun kv =>
                check_charset_requirement password charset_mapping
                  mapped_password (fst kv) (snd kv))
             reqs
       | None => true
       end.

Definition check_password (password : jsstring) (pcp : PCP.t)
  : result PCP.error bool :=
  PCP.validate pcp ;;
  let charset_mapping := assign_indices [] 0 (keys (PCP.charsets pcp)) in
  match map_password (PCP.charsets pcp) charset_mapping (chars_of password)
  with
  | None => Ok false
  | Some mapped_password =>
      Ok (existsb
            (fun rule =>
               check_password_against_rule password rule charset_mapping
                 mapped_password)
            (PCP.rules pcp))
  end.

(** ** Policies used in the statements below *)

(** A rule with the given [min_length] and nothing else. *)
Definition rule_of_min_length (min_length : number) : PCPRule.t :=
  PCPRule.mk min_length None None None None None None.

(** Scenario A: [{min_length: 8, require: ["upper", "digits"]}] over the
    default charsets. *)
Definition scenario_A_rule : PCPRule.t :=
  PCPRule.mk 8 None None None (Some [js "upper"; js "digits"]) None None.

Definition scenario_A : PCP.t := PCP.new [scenario_A_rule] None.

(** [{min_length: 1, require_subset: {count: 1, options: ["lower",
    "upper"]}}] over the default charsets. *)
Definition subset_rule : PCPRule.t :=
  PCPRule.mk 1 None None None None
    (Some (PCPSubsetRequirement.mk 1 (Some [js "lower"; js "upper"]))) None.

Definition subset_policy : PCP.t := PCP.new [subset_rule] None.

(** A policy whose only charset is [lower = {a, b, c}]. *)
Definition abc_policy : PCP.t :=
  PCP.new [rule_of_min_length 1]
    (Some [(js "lower", Set_of_string (js "abc"))]).

(** Scenario E: [{min_length: 2, charset_requirements: {digits:
    {required_locations: [0, -1]}}}] over the default charsets. *)
Definition scenario_E_rule : PCPRule.t :=
  PCPRule.mk 2 None None None None None
    (Some [(js "digits",
            PCPCharsetRequirement.mk None None None
              (Some [Fin 0; Fin (-1)]) None)]).

Definition scenario_E : PCP.t := PCP.new [scenario_E_rule] None.

(** The charset requirement [{required_locations: [-1]}]. *)
Definition last_location : PCPCharsetRequirement.t :=
  PCPCharsetRequirement.mk None None None (Some [Fin (-1)]) None.

(** [{min_length: 1, require_subset: {count: 1, options: ["lower",
    "upper"]}, charset_requirements: {lower: {max_allowed: 0}}}] over the
    default charsets. *)
Definition max_allowed_zero_rule : PCPRule.t :=
  PCPRule.mk 1 None None None None
    (Some (PCPSubsetRequirement.mk 1 (Some [js "lower"; js "upper"])))
    (Some [(js "lower",
            PCPCharsetRequirement.mk None (Some (Fin 0)) None None None)]).

Definition max_allowed_zero_policy : PCP.t :=
  PCP.new [max_allowed_zero_rule] None.

(** [{min_length: 1, charset_requirements: {digits: {required_locations:
    [0]}}}] over the default charsets. *)
Definition first_digit_rule : PCPRule.t :=
  PCPRule.mk 1 None None None None None
    (Some [(js "digits",
            PCPCharsetRequirement.mk None None None (Some [Fin 0]) None)]).

Definition first_digit_policy : PCP.t := PCP.new [first_digit_rule] None.

(** [{min_length: 1}] over the default charsets. *)
Definition any_length_policy : PCP.t := PCP.new [rule_of_min_length 1] None.

(** The charset requirement [{min_required: 1, max_allowed: 2,
    required_locations: [0, 1], prohibited_locations: [2]}]. *)
Definition bounded_requirement : PCPCharsetRequirement.t :=
  PCPCharsetRequirement.mk (Some (Fin 1)) (Some (Fin 2)) None
    (Some [Fin 0; Fin 1]) (Some [Fin 2]).

(** An optional [Set] that [to_json] writes as an array, or leaves out:
    it is not the empty [Set]. *)
Definition written_as_array {A} (value : option (list A)) : Prop :=
  match value with
  | Some s => s <> [] /\ NoDup s
  | None => True
  end.

(** A number that [JSON.stringify] writes as a number and [JSON.parse]
    reads back: it is finite, an integer that a double holds. *)
Definition written_as_number (value : number) : Prop :=
  exists z, value = Fin z /\ round_to_double z = Fin z.

Definition written_if_set (value : option number) : Prop :=
  match value with
  | Some v => written_as_number v
  | None => True
  end.

Definition written_as_numbers (value : option (list number)) : Prop :=
  match value with
  | Some s => Forall written_as_number s
  | None => True
  end.

(** The rules and requirements whose numbers are finite, without an
    empty [Set] and without options in [require_subset]. *)
Definition plain_requirement (requirements : PCPCharsetRequirement.t)
  : Prop :=
  written_if_set (PCPCharsetRequirement.min_required requirements) /\
  written_if_set (PCPCharsetRequirement.max_allowed requirements) /\
  written_if_set (PCPCharsetRequirement.max_consecutive requirements) /\
  written_as_numbers
    (PCPCharsetRequirement.required_locations requirements) /\
  written_as_numbers
    (PCPCharsetRequirement.prohibited_locations requirements) /\
  written_as_array (PCPCharsetRequirement.required_locations requirements) /\
  written_as_array (PCPCharsetRequirement.prohibited_locations requirements).

Definition plain_rule (rule : PCPRule.t) : Prop :=
  written_as_number (PCPRule.min_length rule) /\
  written_if_set (PCPRule.max_length rule) /\
  written_if_set (PCPRule.max_consecutive rule) /\
  written_as_array (PCPRule.prohibited_substrings rule) /\
  written_as_array (PCPRule.require rule) /\
  match PCPRule.require_subset rule with
  | Some rs =>
      written_as_number (PCPSubsetRequirement.count rs) /\
      PCPSubsetRequirement.options rs = None
  | None => True
  end /\
  match PCPRule.charset_requirements rule with
  | Some reqs => Forall (fun kv => plain_requirement (snd kv)) reqs
  | None => True
  end.

(** [{min_length: 8, max_length: 64, prohibited_substrings: ["admin"],
    require_subset: {count: 2}, charset_requirements: {digits:
    {max_allowed: 4, prohibited_locations: [0]}}}] and [{min_length: 16}]
    over the default charsets. *)
Definition two_rule_policy : PCP.t :=
  PCP.new
    [ PCPRule.mk 8 (Some (Fin 64)) None (Some [js "admin"]) None
        (Some (PCPSubsetRequirement.mk 2 None))
        (Some [(js "digits",
                PCPCharsetRequirement.mk None (Some (Fin 4)) None None
                  (Some [Fin 0]))]);
      rule_of_min_length 16 ]
    None.

(** [{min_length: 1, require_subset: {count: 1, options: ["lower",
    "upper"]}, charset_requirements: {digits: {min_required: 2,
    max_allowed: 3}}}] over the default charsets. *)
Definition two_digits : PCPCharsetRequirement.t :=
  PCPCharsetRequirement.mk (Some (Fin 2)) (Some (Fin 3)) None None None.

Definition digits_rule : PCPRule.t :=
  PCPRule.mk 1 None None None None
    (Some (PCPSubsetRequirement.mk 1 (Some [js "lower"; js "upper"])))
    (Some [(js "digits", two_digits)]).

Definition digits_policy : PCP.t := PCP.new [digits_rule] None.

(** [{min_length: NaN}] over the default charsets. *)
Definition nan_policy : PCP.t := PCP.new [rule_of_min_length NaN] None.

(** [{min_length: 8, max_length: 64, max_consecutive: 3, require:
    ["digits"], require_subset: {count: 1, options: ["lower", "upper"]},
    charset_requirements: {symbols: {max_allowed: 2}}}]. *)
Definition full_rule : PCPRule.t :=
  PCPRule.mk 8 (Some (Fin 64)) (Some (Fin 3)) None (Some [js "digits"])
    (Some (PCPSubsetRequirement.mk 1 (Some [js "lower"; js "upper"])))
    (Some [(js "symbols",
            PCPCharsetRequirement.mk None (Some (Fin 2)) None None None)]).

(** The index space [check_password] builds for a policy. *)
Definition charset_mapping_of (pcp : PCP.t) : list (jsstring * nat) :=
  assign_indices [] 0 (keys (PCP.charsets pcp)).

(** ** Properties of the helpers *)

Lemma str_eqb_eq (a b : jsstring) : str_eqb a b = true <-> a = b.
Proof.
  revert b; induction a as [|x a IH]; intros [|y b]; simpl;
    try (split; [discriminate | discriminate]); try tauto.
  rewrite andb_true_iff, N.eqb_eq, IH.
  split; [intros [-> ->]; reflexivity | intros H; inversion H; auto].
Qed.

Lemma str_eqb_refl (a : jsstring) : str_eqb a a = true.
Proof. apply str_eqb_eq; reflexivity. Qed.

(** Splits a hypothesis [a ;; b ;; ... = Ok _] into one equation for each
    statement of the sequence. *)
Ltac split_sequence H :=
  repeat match type of H with
    | match ?a with Ok _ => _ | Throw _ => _ end = Ok _ =>
        let E := fresh "E" in
        destruct a eqn:E; [ | discriminate H ]
    end.

Lemma for_each_Ok {E A} (body : A -> result E unit) (l : list A) (u : unit) :
  for_each body l = Ok u -> forall x, In x l -> body x = Ok tt.
Proof.
  induction l as [|y l IH]; simpl; intros H x Hin; [contradiction|].
  destruct (body y) as [[]|e] eqn:Hy; [|discriminate].
  destruct Hin as [<-|Hin]; [exact Hy | exact (IH H x Hin)].
Qed.

Lemma for_each_i_Ok {E A} (body : nat -> A -> result E unit) (l : list A) :
  forall (i : nat) (u : unit),
    for_each_i body i l = Ok u ->
    forall x, In x l -> exists j, body j x = Ok tt.
Proof.
  induction l as [|y l IH]; simpl; intros i u H x Hin; [contradiction|].
  destruct (body i y) as [[]|e] eqn:Hy; [|discriminate].
  destruct Hin as [<-|Hin]; [exists i; exact Hy | exact (IH _ _ H x Hin)].
Qed.

Lemma within_Ok {E F A} (path : E -> F) (a : result E A) (x : A) :
  within path a = Ok x -> a = Ok x.
Proof. destruct a; simpl; [intros H; inversion H; reflexivity | discriminate]. Qed.

Lemma throw_if_Ok {E} (c : bool) (e : E) (u : unit) :
  throw_if c e = Ok u -> c = false.
Proof. destruct c; simpl; [discriminate | reflexivity]. Qed.

(** A policy that validates has validated each of its rules. *)
Lemma validate_rules (pcp : PCP.t) (rule : PCPRule.t) :
  PCP.validate pcp = Ok tt ->
  In rule (PCP.rules pcp) ->
  PCPRule._validate rule (keys (PCP.charsets pcp)) = Ok tt.
Proof.
  unfold PCP.validate; intros H Hin.
  split_sequence H.
  destruct (for_each_i_Ok _ _ _ _ H rule Hin) as [j Hj].
  apply within_Ok in Hj; exact Hj.
Qed.

(** The first test of [_validate] on a rule that validates. *)
Lemma rule_validate_min_length (rule : PCPRule.t) (charsets : list jsstring) :
  PCPRule._validate rule charsets = Ok tt ->
  (PCPRule.min_length rule <? 1)%num = false.
Proof.
  unfold PCPRule._validate; intros H.
  split_sequence H.
  match goal with
  | E : throw_if _ PCPRule.MinLengthLessThan1 = Ok _ |- _ =>
      apply throw_if_Ok in E; exact E
  end.
Qed.

(** The order of the numbers other than [NaN]. *)
Lemma number_ltb_Fin (x y : Z) : (Fin x <? Fin y)%num = (x <? y).
Proof. reflexivity. Qed.

Lemma number_leb_Fin (x y : Z) : (Fin x <=? Fin y)%num = (x <=? y).
Proof. reflexivity. Qed.

Lemma number_ltb_false (a b : number) :
  (a <? b)%num = false -> a = NaN \/ b = NaN \/ (b <=? a)%num = true.
Proof.
  destruct a, b; simpl; auto; try discriminate.
  intros H; right; right. apply Z.ltb_ge in H; apply Z.leb_le; exact H.
Qed.

Lemma number_leb_false (a b : number) :
  (a <=? b)%num = false -> a = NaN \/ b = NaN \/ (b <? a)%num = true.
Proof.
  destruct a, b; simpl; auto; try discriminate.
  intros H; right; right. apply Z.leb_gt in H; apply Z.ltb_lt; exact H.
Qed.


(** The keys of [charset_requirements] are names of the charset table. *)
Lemma rule_validate_requirement_names (rule : PCPRule.t)
  (charsets : list jsstring) reqs charset requirements :
  PCPRule._validate rule charsets = Ok tt ->
  PCPRule.charset_requirements rule = Some reqs ->
  In (charset, requirements) reqs ->
  has str_eqb charsets charset = true.
Proof.
  unfold PCPRule._validate; intros H Hreqs Hin.
  split_sequence H.
  rewrite Hreqs in *.
  match goal with
  | E : for_each (fun kv => throw_if (negb (has _ _ _)) _ ;; _) reqs = Ok _
    |- _ => pose proof (for_each_Ok _ _ _ E _ Hin) as Hkv
  end.
  simpl in Hkv.
  destruct (has str_eqb charsets charset); [reflexivity | discriminate Hkv].
Qed.

(** The string iterator yields at most one character per code unit. *)
Lemma chars_of_length (s : jsstring) :
  (length (chars_of s) <= length s)%nat.
Proof.
  assert (H : forall n (t : jsstring),
             (length t <= n)%nat -> (length (chars_of t) <= length t)%nat).
  { induction n as [|n IH]; intros t Hn.
    - destruct t; simpl in *; lia.
    - destruct t as [|a [|b t]]; simpl in *; try lia.
      destruct (is_high_surrogate a && is_low_surrogate b); simpl.
      + assert (length (chars_of t) <= length t)%nat by (apply IH; lia).
        lia.
      + assert (length (chars_of (b :: t)) <= length (b :: t))%nat
          by (apply IH; simpl; lia).
        simpl in *; lia. }
  apply (H (length s)); lia.
Qed.

(** Classification gives one index per character. *)
Lemma map_password_length charsets charset_mapping chars :
  forall mapped,
    map_password charsets charset_mapping chars = Some mapped ->
    length mapped = length chars.
Proof.
  induction chars as [|c chars IH]; simpl; intros mapped H.
  - inversion H; reflexivity.
  - destruct (classify charsets charset_mapping c); [|discriminate].
    destruct (map_password charsets charset_mapping chars) as [m|];
      [|discriminate].
    inversion H; simpl; rewrite (IH m); reflexivity.
Qed.

(** A character of no charset stops the classification. *)
Lemma classify_none charsets charset_mapping char :
  (forall name charset,
     In (name, charset) charsets -> has str_eqb charset char = false) ->
  classify charsets charset_mapping char = None.
Proof.
  intros H; unfold classify.
  destruct (find (fun kv => has str_eqb (snd kv) char) charsets)
    as [[name charset]|] eqn:F; [|reflexivity].
  apply find_some in F; destruct F as [Hin Hhas]; simpl in Hhas.
  rewrite (H _ _ Hin) in Hhas; discriminate.
Qed.

Lemma map_password_none charsets charset_mapping chars char :
  In char chars ->
  classify charsets charset_mapping char = None ->
  map_password charsets charset_mapping chars = None.
Proof.
  induction chars as [|c chars IH]; simpl; intros Hin Hc; [contradiction|].
  destruct Hin as [->|Hin].
  - rewrite Hc; reflexivity.
  - destruct (classify charsets charset_mapping c); [|reflexivity].
    rewrite (IH Hin Hc); reflexivity.
Qed.

Lemma get_set_same {V} (obj : list (jsstring * V)) key v :
  exists w, get (set obj key v) key = Some w.
Proof.
  induction obj as [|[k w] obj IH]; simpl.
  - rewrite str_eqb_refl; eauto.
  - destruct (str_eqb k key) eqn:E; simpl; rewrite E; eauto.
Qed.

Lemma get_set_defined {V} (obj : list (jsstring * V)) key k v w :
  get obj key = Some w -> exists w', get (set obj k v) key = Some w'.
Proof.
  induction obj as [|[k0 w0] obj IH]; simpl; [discriminate|].
  intros H.
  destruct (str_eqb k0 k) eqn:Ek; simpl.
  - destruct (str_eqb k0 key); eauto.
  - destruct (str_eqb k0 key); eauto.
Qed.

(** Every charset name has an index in [charset_mapping]. *)
Lemma get_assign_indices names :
  forall charset_mapping i key,
    has str_eqb names key = true \/
    (exists w, get charset_mapping key = Some w) ->
    exists index, get (assign_indices charset_mapping i names) key = Some index.
Proof.
  induction names as [|name names IH]; simpl; intros m i key H.
  - destruct H as [H|H]; [discriminate | exact H].
  - apply IH.
    destruct H as [H|[w H]].
    + apply orb_true_iff in H; destruct H as [H|H]; [|left; exact H].
      right. apply str_eqb_eq in H; subst key. apply get_set_same.
    + right. exact (get_set_defined _ _ _ _ _ H).
Qed.

(** An index past the end of the array reads [undefined]. *)
Lemma at_index_past_end (a : list jsval) (i : Z) :
  Z.of_nat (length a) <= i -> at_index a (Fin i) = None.
Proof.
  intros H; unfold at_index.
  destruct (i <? 0) eqn:E; [reflexivity|].
  apply nth_overflow; lia.
Qed.

(** A rule that asks for its charset at location 0 fails whatever the
    password is, as soon as the charset has an index and the array of
    indices is no longer than the password. *)
Lemma required_location_zero_fails password charset_mapping mapped_password
  charset requirements locations index :
  get charset_mapping charset = Some index ->
  (length mapped_password <= length password)%nat ->
  PCPCharsetRequirement.required_locations requirements = Some locations ->
  In (Fin 0) locations ->
  check_charset_requirement password charset_mapping mapped_password
    charset requirements = false.
Proof.
  intros Hget Hlen Hloc Hin.
  unfold check_charset_requirement.
  rewrite Hget, Hloc.
  assert (F : existsb
                (required_location_fails password mapped_password (Some index))
                locations = true).
  { apply existsb_exists; exists (Fin 0); split; [exact Hin|].
    unfold required_location_fails, length_plus.
    rewrite (at_index_past_end mapped_password (js_length password + 0))
      by (unfold js_length; lia).
    simpl. apply orb_true_r. }
  rewrite F.
  repeat match goal with
         | |- (if ?c then false else _) = false => destruct c; [reflexivity|]
         end.
  reflexivity.
Qed.

(** A policy that validates still validates when it keeps one of its
    rules only. *)
Lemma validate_single_rule rules charsets rule :
  PCP.validate (PCP.mk rules charsets) = Ok tt ->
  In rule rules ->
  PCP.validate (PCP.mk [rule] charsets) = Ok tt.
Proof.
  intros H Hin.
  pose proof (validate_rules _ _ H Hin) as Hrule.
  unfold PCP.validate in *; simpl in *.
  split_sequence H.
  rewrite Hrule; simpl.
  repeat match goal with u : unit |- _ => destruct u end.
  reflexivity.
Qed.


(** [areCharsetsEqual] answers [true] against each of the two presets
    for a table without a charset named [size], and [false] for a table
    with one. *)
Lemma areCharsetsEqual_presets (first : list (jsstring * list jsstring)) :
  (get first (js "size") = None ->
   areCharsetsEqual first DEFAULT_CHARSETS = true /\
   areCharsetsEqual first ALPHABET_CHARSETS = true) /\
  (get first (js "size") <> None ->
   areCharsetsEqual first DEFAULT_CHARSETS = false /\
   areCharsetsEqual first ALPHABET_CHARSETS = false).
Proof.
  unfold areCharsetsEqual, size_differs.
  destruct (get first (js "size")) as [s|]; split; intros H;
    try discriminate; try congruence; split; vm_compute; reflexivity.
Qed.

(** A rule with a non-empty [require] validates only if it has a
    [require_subset] with explicit options: otherwise [subset_charsets]
    is the whole table. *)
Lemma require_needs_explicit_options (rule : PCPRule.t)
  (charsets r : list jsstring) (name : jsstring) :
  PCPRule.require rule = Some r ->
  In name r ->
  PCPRule.subset_charsets rule charsets = charsets ->
  PCPRule._validate rule charsets <> Ok tt.
Proof.
  intros Hreq Hin Hsub H.
  unfold PCPRule._validate, PCPRule.require_charsets in H.
  rewrite Hreq, Hsub in H.
  split_sequence H.
  match goal with
  | E : throw_if (negb (isSubset _ r charsets)) _ = Ok _ |- _ =>
      apply throw_if_Ok, negb_false_iff in E; rename E into Hsubset
  end.
  match goal with
  | E : throw_if (hasSetIntersection _ r charsets) _ = Ok _ |- _ =>
      apply throw_if_Ok in E; rename E into Hdisjoint
  end.
  unfold isSubset in Hsubset.
  destruct (size r >? size charsets); [discriminate|].
  rewrite forallb_forall in Hsubset.
  unfold hasSetIntersection in Hdisjoint.
  assert (T : existsb (has str_eqb charsets) r = true)
    by (apply existsb_exists; exists name; auto).
  congruence.
Qed.

(** ** The claims *)

(** C1 (the code departs from it).  Scenario A says that [check] answers
    [true] for "Password1" and [false] for "password" and "abcd1234".
    The code throws on all three: a rule without [require_subset] has the
    whole charset table as [subset_charsets], which every non-empty
    [require] overlaps, so validation rejects the policy. *)
Theorem C1_scenario_A_throws :
  check_password (js "Password1") scenario_A =
    Throw (PCP.Rule 0
             (PCPRule.RequireOverlapsSubset [js "upper"; js "digits"])) /\
  check_password (js "password") scenario_A =
    Throw (PCP.Rule 0
             (PCPRule.RequireOverlapsSubset [js "upper"; js "digits"])) /\
  check_password (js "abcd1234") scenario_A =
    Throw (PCP.Rule 0
             (PCPRule.RequireOverlapsSubset [js "upper"; js "digits"])).
Proof. repeat split; vm_compute; reflexivity. Qed.

(** C2 (the code departs from it).  The round trip does not keep the
    behaviour of a policy whose rule has a [require_subset] with options:
    [subset_policy] accepts "a", and what [parse] reads back from its
    [stringify] has an empty set of options, on which [check] throws. *)
Theorem C2_round_trip_loses_options :
  check_password (js "a") subset_policy = Ok true /\
  exists parsed,
    PCP.parse (PCP.stringify subset_policy) = Some parsed /\
    map PCPRule.require_subset (PCP.rules parsed) =
      [Some (PCPSubsetRequirement.mk 1 (Some []))] /\
    check_password (js "a") parsed =
      Throw (PCP.Rule 0
               (PCPRule.SubsetRequirement
                  PCPSubsetRequirement.OptionsFewerThanTwo)).
Proof.
  split; [vm_compute; reflexivity|].
  eexists; split; [vm_compute; reflexivity|].
  split; vm_compute; reflexivity.
Qed.

(** C3 (the code departs from it).  [stringify] is to leave the charsets
    out exactly when the table equals a preset.  The table of
    [abc_policy] has the single charset [lower = {a, b, c}], which is
    neither preset, and the output is the bare rule, without [charsets]:
    [areCharsetsEqual] compares the preset with itself. *)
Theorem C3_stringify_drops_custom_charsets :
  areSetsEqual str_eqb (Set_of_string (js "abc"))
    (Set_of_string ascii_lowercase) = false /\
  key_in (js "lower") ALPHABET_CHARSETS = false /\
  PCP.stringify abc_policy = JObject [(js "min_length", JNumber 1)].
Proof. repeat split; vm_compute; reflexivity. Qed.

(** C4 (the code departs from it).  Scenario E says that "1a2" satisfies
    the rule and that [check] answers [true] for it.  The code throws
    when it validates the policy (location [-1] is refused under
    [min_length = 2]), and the evaluation of the rule on the classified
    password answers [false] (location [0] is also read at index
    [password.length]). *)
Theorem C4_scenario_E_fails :
  check_password (js "1a2") scenario_E =
    Throw (PCP.Rule 0
             (PCPRule.CharsetRequirement (js "digits")
                PCPCharsetRequirement.LocationNotGuaranteed)) /\
  map_password (PCP.charsets scenario_E) (charset_mapping_of scenario_E)
    (chars_of (js "1a2")) = Some [Some 2%nat; Some 0%nat; Some 2%nat] /\
  check_password_against_rule (js "1a2") scenario_E_rule
    (charset_mapping_of scenario_E) [Some 2%nat; Some 0%nat; Some 2%nat]
    = false.
Proof. repeat split; vm_compute; reflexivity. Qed.

(** C5 (the code departs from it).  A location [p < 0] is to be accepted
    when [min_length >= -p].  The code refuses location [-1] under
    [min_length = 1] and [min_length = 2], and accepts it from
    [min_length = 3] on: the test is [-p + 1 >= min_length]. *)
Theorem C5_last_location_refused :
  PCPCharsetRequirement._validate last_location 1 =
    Throw PCPCharsetRequirement.LocationNotGuaranteed /\
  PCPCharsetRequirement._validate last_location 2 =
    Throw PCPCharsetRequirement.LocationNotGuaranteed /\
  PCPCharsetRequirement._validate last_location 3 = Ok tt.
Proof. repeat split; vm_compute; reflexivity. Qed.

(** C6.  When the policy of two rules validates, so does the policy of
    each rule alone, and [check] on the two rules is the disjunction of
    [check] on each. *)
Theorem C6_or_semantics (password : jsstring) (r1 r2 : PCPRule.t)
  (charsets : list (jsstring * list jsstring)) :
  PCP.validate (PCP.mk [r1; r2] charsets) = Ok tt ->
  exists b1 b2,
    check_password password (PCP.mk [r1] charsets) = Ok b1 /\
    check_password password (PCP.mk [r2] charsets) = Ok b2 /\
    check_password password (PCP.mk [r1; r2] charsets) = Ok (b1 || b2).
Proof.
  intros H.
  assert (H1 : PCP.validate (PCP.mk [r1] charsets) = Ok tt)
    by (apply (validate_single_rule _ _ _ H); simpl; auto).
  assert (H2 : PCP.validate (PCP.mk [r2] charsets) = Ok tt)
    by (apply (validate_single_rule _ _ _ H); simpl; auto).
  unfold check_password; rewrite H, H1, H2; simpl.
  destruct (map_password charsets (assign_indices [] 0 (keys charsets))
              (chars_of password)) as [mapped_password|].
  - do 2 eexists; repeat split; rewrite !orb_false_r; reflexivity.
  - exists false, false; repeat split.
Qed.

Lemma C6_or_semantics_witness :
  PCP.validate
    (PCP.mk [rule_of_min_length 8; first_digit_rule] DEFAULT_CHARSETS) = Ok tt /\
  exists b1 b2,
    check_password (js "abc")
      (PCP.mk [rule_of_min_length 8] DEFAULT_CHARSETS) = Ok b1 /\
    check_password (js "abc")
      (PCP.mk [first_digit_rule] DEFAULT_CHARSETS) = Ok b2 /\
    check_password (js "abc")
      (PCP.mk [rule_of_min_length 8; first_digit_rule] DEFAULT_CHARSETS)
      = Ok (b1 || b2).
Proof.
  split; [vm_compute; reflexivity|].
  apply (C6_or_semantics (js "abc") (rule_of_min_length 8) first_digit_rule
           DEFAULT_CHARSETS).
  vm_compute; reflexivity.
Defined.

(** C7.  On a policy that validates, a password with a character that no
    charset of the table has is rejected with [false], not with an
    error: the classification stops, and no rule is looked at. *)
Theorem C7_unknown_character_rejected (password : jsstring) (pcp : PCP.t)
  (char : jsstring) :
  PCP.validate pcp = Ok tt ->
  In char (chars_of password) ->
  (forall name charset,
     In (name, charset) (PCP.charsets pcp) ->
     has str_eqb charset char = false) ->
  map_password (PCP.charsets pcp) (charset_mapping_of pcp)
    (chars_of password) = None /\
  check_password password pcp = Ok false.
Proof.
  intros Hv Hin Hno.
  assert (M : map_password (PCP.charsets pcp) (charset_mapping_of pcp)
                (chars_of password) = None).
  { apply (map_password_none _ _ _ char Hin).
    apply classify_none; exact Hno. }
  split; [exact M|].
  unfold check_password; rewrite Hv.
  unfold charset_mapping_of in M; rewrite M; reflexivity.
Qed.

Lemma C7_unknown_character_rejected_witness :
  PCP.validate any_length_policy = Ok tt /\
  In (js " ") (chars_of (js "a b")) /\
  map_password (PCP.charsets any_length_policy)
    (charset_mapping_of any_length_policy) (chars_of (js "a b")) = None /\
  check_password (js "a b") any_length_policy = Ok false.
Proof.
  split; [vm_compute; reflexivity|].
  split; [vm_compute; right; left; reflexivity|].
  apply (C7_unknown_character_rejected (js "a b") any_length_policy (js " ")).
  - vm_compute; reflexivity.
  - vm_compute; right; left; reflexivity.
  - intros name charset Hin. vm_compute in Hin.
    repeat (destruct Hin as [Hin|Hin];
            [inversion Hin; vm_compute; reflexivity|]).
    contradiction.
Defined.

(** C8 (the code departs from it).  A requirement with [max_allowed = 0]
    on a charset that the options of [require_subset] name is to be
    refused.  The policy validates: [0] is falsy, so neither the test
    [max_allowed && max_allowed == 0] nor the test [max_allowed &&
    max_allowed < 1] throws. *)
Theorem C8_max_allowed_zero_validates :
  PCP.validate max_allowed_zero_policy = Ok tt.
Proof. vm_compute; reflexivity. Qed.

(** C9.  In a policy that validates, a rule with a charset requirement
    whose [required_locations] has [0] is satisfied by no password: on
    the classification of any password the evaluation of the rule
    answers [false]. *)
Theorem C9_required_location_zero_unsatisfiable (pcp : PCP.t)
  (rule : PCPRule.t) (reqs : list (jsstring * PCPCharsetRequirement.t))
  (charset : jsstring) (requirements : PCPCharsetRequirement.t)
  (locations : list number) (password : jsstring)
  (mapped_password : list jsval) :
  PCP.validate pcp = Ok tt ->
  In rule (PCP.rules pcp) ->
  PCPRule.charset_requirements rule = Some reqs ->
  In (charset, requirements) reqs ->
  PCPCharsetRequirement.required_locations requirements = Some locations ->
  In (Fin 0) locations ->
  map_password (PCP.charsets pcp) (charset_mapping_of pcp)
    (chars_of password) = Some mapped_password ->
  check_password_against_rule password rule (charset_mapping_of pcp)
    mapped_password = false.
Proof.
  intros Hv Hrule Hreqs Hin Hloc H0 Hmap.
  unfold charset_mapping_of in *.
  pose proof (validate_rules _ _ Hv Hrule) as Hr.
  pose proof (rule_validate_requirement_names _ _ _ _ _ Hr Hreqs Hin) as Hname.
  destruct (get_assign_indices (keys (PCP.charsets pcp)) [] 0%nat charset
              (or_introl Hname)) as [index Hget].
  assert (Hlen : (length mapped_password <= length password)%nat).
  { rewrite (map_password_length _ _ _ _ Hmap). apply chars_of_length. }
  assert (F : forallb
                (fun kv =>
                   check_charset_requirement password
                     (assign_indices [] 0 (keys (PCP.charsets pcp)))
                     mapped_password (fst kv) (snd kv)) reqs = false).
  { apply not_true_is_false; intros T.
    rewrite forallb_forall in T. specialize (T _ Hin); simpl in T.
    rewrite (required_location_zero_fails _ _ _ _ _ _ _ Hget Hlen Hloc H0) in T.
    discriminate. }
  unfold check_password_against_rule.
  rewrite Hreqs, F.
  repeat match goal with
         | |- (if ?c then false else _) = false => destruct c; [reflexivity|]
         end.
  reflexivity.
Qed.

Lemma C9_required_location_zero_unsatisfiable_witness :
  PCP.validate first_digit_policy = Ok tt /\
  map_password (PCP.charsets first_digit_policy)
    (charset_mapping_of first_digit_policy) (chars_of (js "1a"))
    = Some [Some 2%nat; Some 0%nat] /\
  check_password_against_rule (js "1a") first_digit_rule
    (charset_mapping_of first_digit_policy) [Some 2%nat; Some 0%nat] = false.
Proof.
  split; [vm_compute; reflexivity|].
  split; [vm_compute; reflexivity|].
  apply (C9_required_location_zero_unsatisfiable first_digit_policy
           first_digit_rule
           [(js "digits",
             PCPCharsetRequirement.mk None None None (Some [Fin 0]) None)]
           (js "digits")
           (PCPCharsetRequirement.mk None None None (Some [Fin 0]) None)
           [Fin 0] (js "1a") [Some 2%nat; Some 0%nat]).
  - vm_compute; reflexivity.
  - simpl; left; reflexivity.
  - reflexivity.
  - simpl; left; reflexivity.
  - reflexivity.
  - simpl; left; reflexivity.
  - vm_compute; reflexivity.
Defined.

(** C10 (the code departs from it).  On a policy that validates,
    [check] of the empty password is to be [false], every rule having
    [min_length >= 1].  The rule whose [min_length] is [NaN] validates,
    since [NaN < 1] is false, and accepts the empty password, since
    [0 < NaN] is false. *)
Theorem C10_empty_password_accepted :
  PCP.validate nan_policy = Ok tt /\
  check_password [] nan_policy = Ok true.
Proof. split; vm_compute; reflexivity. Qed.
(** ** Further properties: the set helpers *)

Section SetFacts.
Context {A : Type} (eqb : A -> A -> bool).
Hypothesis eqb_eq : forall x y, eqb x y = true <-> x = y.

Lemma has_In (s : list A) (x : A) : has eqb s x = true <-> In x s.
Proof.
  unfold has; rewrite existsb_exists; split.
  - intros [y [Hin Hy]]; apply eqb_eq in Hy; subst; exact Hin.
  - intros Hin; exists x; split; [exact Hin | apply eqb_eq; reflexivity].
Qed.

Lemma has_false (s : list A) (x : A) : has eqb s x = false <-> ~ In x s.
Proof.
  rewrite <- has_In; destruct (has eqb s x); split; intros H.
  - discriminate.
  - exfalso; apply H; reflexivity.
  - discriminate.
  - reflexivity.
Qed.

(** X1.  On sets (lists without repetition) [areSetsEqual] answers
    [true] exactly when the two sets have the same elements: with equal
    sizes, the inclusion of the first in the second is enough. *)
Theorem areSetsEqual_same_elements (first second : list A) :
  NoDup first -> NoDup second ->
  (areSetsEqual eqb first second = true <->
   forall x, In x first <-> In x second).
Proof.
  intros N1 N2; unfold areSetsEqual, size.
  destruct (Z.of_nat (length first) =? Z.of_nat (length second)) eqn:L; simpl.
  - apply Z.eqb_eq in L. rewrite forallb_forall.
    split.
    + intros H.
      assert (I : incl first second) by (intros x Hx; apply has_In; auto).
      assert (I' : incl second first)
        by (apply (NoDup_length_incl N1); [lia | exact I]).
      intros x; split; [apply I | apply I'].
    + intros H x Hx; apply has_In, H, Hx.
  - apply Z.eqb_neq in L. split; [discriminate|].
    intros H; exfalso; apply L.
    assert (length first <= length second)%nat
      by (apply NoDup_incl_length; [exact N1 | intros x; apply H]).
    assert (length second <= length first)%nat
      by (apply NoDup_incl_length; [exact N2 | intros x; apply H]).
    lia.
Qed.

(** X2.  On a set, [isSubset] answers [true] exactly when every element
    of the candidate subset is in the superset. *)
Theorem isSubset_incl (subset superset : list A) :
  NoDup subset ->
  (isSubset eqb subset superset = true <->
   forall x, In x subset -> In x superset).
Proof.
  intros N; unfold isSubset, size.
  destruct (Z.of_nat (length subset) >? Z.of_nat (length superset)) eqn:L.
  - split; [discriminate|].
    intros H; exfalso.
    assert (length subset <= length superset)%nat
      by (apply NoDup_incl_length; [exact N | exact H]).
    apply Z.gtb_lt in L; lia.
  - rewrite forallb_forall; split; intros H x Hx.
    + apply has_In; auto.
    + apply has_In; auto.
Qed.

(** [hasSetIntersection] answers [true] exactly when some element
    is in both sets, and [getSetIntersection] lists exactly those
    elements. *)
Lemma set_intersection_elements (first second : list A) :
  (hasSetIntersection eqb first second = true <->
   exists x, In x first /\ In x second) /\
  (forall x, In x (getSetIntersection eqb first second) <->
             In x first /\ In x second).
Proof.
  unfold hasSetIntersection, getSetIntersection; split.
  - rewrite existsb_exists; split; intros [x [H1 H2]]; exists x;
      (split; [exact H1 | apply has_In; exact H2]).
  - intros x; rewrite filter_In, has_In; reflexivity.
Qed.

Lemma new_Set_step (l acc : list A) :
  NoDup acc ->
  NoDup (fold_left (fun acc x => if has eqb acc x then acc else acc ++ [x])
           l acc) /\
  forall x,
    In x (fold_left (fun acc x => if has eqb acc x then acc else acc ++ [x])
            l acc) <-> In x acc \/ In x l.
Proof.
  revert acc; induction l as [|y l IH]; simpl; intros acc N.
  - split; [exact N | intros x; tauto].
  - destruct (has eqb acc y) eqn:Hy.
    + destruct (IH acc N) as [N' I]; split; [exact N'|].
      intros x; rewrite I. apply has_In in Hy.
      split; [tauto | intros [H|[<-|H]]; auto].
    + assert (N2 : NoDup (acc ++ [y])).
      { apply has_false in Hy. apply NoDup_app; [exact N | repeat constructor; simpl; tauto |].
        intros x Hx [<-|[]]; auto. }
      destruct (IH _ N2) as [N' I]; split; [exact N'|].
      intros x; rewrite I, in_app_iff; simpl; tauto.
Qed.

(** [new Set(l)] is a set with the elements of [l]. *)
Lemma new_Set_NoDup (l : list A) :
  NoDup (new_Set eqb l) /\ forall x, In x (new_Set eqb l) <-> In x l.
Proof.
  destruct (new_Set_step l [] (NoDup_nil A)) as [N I]; split; [exact N|].
  intros x; unfold new_Set; rewrite I; simpl; tauto.
Qed.

Lemma new_Set_fixed_step (l acc : list A) :
  NoDup (acc ++ l) ->
  fold_left (fun acc x => if has eqb acc x then acc else acc ++ [x]) l acc
  = acc ++ l.
Proof.
  revert acc; induction l as [|y l IH]; simpl; intros acc N.
  - rewrite app_nil_r; reflexivity.
  - assert (Hy : has eqb acc y = false).
    { apply has_false; intros Hin.
      apply NoDup_remove_2 in N; apply N, in_app_iff; auto. }
    rewrite Hy, IH; rewrite <- app_assoc; simpl; [reflexivity | exact N].
Qed.

(** [new Set] of the elements of a set, in order, is that set. *)
Lemma new_Set_fixed (l : list A) : NoDup l -> new_Set eqb l = l.
Proof. intros N; unfold new_Set; apply (new_Set_fixed_step l []); exact N. Qed.
End SetFacts.

(** Proves [NoDup] of a list of distinct literals. *)
Ltac distinct_literals :=
  repeat constructor; simpl; intuition discriminate.

Lemma areSetsEqual_same_elements_witness :
  areSetsEqual str_eqb [js "a"; js "b"] [js "b"; js "a"] = true <->
  forall x, In x [js "a"; js "b"] <-> In x [js "b"; js "a"].
Proof.
  apply (areSetsEqual_same_elements str_eqb str_eqb_eq).
  - distinct_literals.
  - distinct_literals.
Defined.

Lemma isSubset_incl_witness :
  isSubset str_eqb [js "upper"] (keys DEFAULT_CHARSETS) = true <->
  forall x, In x [js "upper"] -> In x (keys DEFAULT_CHARSETS).
Proof.
  apply (isSubset_incl str_eqb str_eqb_eq).
  distinct_literals.
Defined.

Lemma set_intersection_elements_witness :
  (hasSetIntersection str_eqb [js "a"; js "b"] [js "b"; js "c"] = true <->
   exists x, In x [js "a"; js "b"] /\ In x [js "b"; js "c"]) /\
  (forall x,
     In x (getSetIntersection str_eqb [js "a"; js "b"] [js "b"; js "c"]) <->
     In x [js "a"; js "b"] /\ In x [js "b"; js "c"]).
Proof.
  apply (set_intersection_elements str_eqb str_eqb_eq).
Defined.

(** ** Further properties: what validation guarantees *)

Lemma check_overlap_Ok (entries : list (jsstring * list jsstring)) (u : unit) :
  PCP.check_overlap entries = Ok u ->
  forall i j ki ci kj cj,
    (i < j)%nat ->
    nth_error entries i = Some (ki, ci) ->
    nth_error entries j = Some (kj, cj) ->
    hasSetIntersection str_eqb ci cj = false.
Proof.
  induction entries as [|[k c] entries IH]; simpl; intros H i j ki ci kj cj L Hi Hj.
  - destruct i; discriminate.
  - split_sequence H.
    destruct j as [|j]; [lia|]. simpl in Hj.
    destruct i as [|i]; simpl in Hi.
    + inversion Hi; subst.
      match goal with
      | E : for_each _ entries = Ok _ |- _ =>
          pose proof (for_each_Ok _ _ _ E _ (nth_error_In _ _ Hj)) as F
      end.
      simpl in F. apply throw_if_Ok in F; exact F.
    + apply (IH H i j ki ci kj cj); [lia | exact Hi | exact Hj].
Qed.

(** The charsets at two places of a table that passes the overlap check
    share no character. *)
Lemma check_overlap_disjoint (entries : list (jsstring * list jsstring))
  (u : unit) (i j : nat) (ki kj : jsstring) (ci cj : list jsstring)
  (char : jsstring) :
  PCP.check_overlap entries = Ok u ->
  i <> j ->
  nth_error entries i = Some (ki, ci) ->
  nth_error entries j = Some (kj, cj) ->
  has str_eqb ci char = true ->
  has str_eqb cj char = false.
Proof.
  intros H Hij Hi Hj Hc.
  pose proof (check_overlap_Ok _ _ H) as D.
  apply (has_In str_eqb str_eqb_eq) in Hc.
  apply (has_false str_eqb str_eqb_eq); intros Hc'.
  destruct (Nat.lt_ge_cases i j) as [L|L].
  - pose proof (D i j ki ci kj cj L Hi Hj) as F.
    unfold hasSetIntersection in F.
    assert (T : existsb (has str_eqb cj) ci = true)
      by (apply existsb_exists; exists char; split;
          [exact Hc | apply (has_In str_eqb str_eqb_eq); exact Hc']).
    congruence.
  - assert (L' : (j < i)%nat) by lia.
    pose proof (D j i kj cj ki ci L' Hj Hi) as F.
    unfold hasSetIntersection in F.
    assert (T : existsb (has str_eqb ci) cj = true)
      by (apply existsb_exists; exists char; split;
          [exact Hc' | apply (has_In str_eqb str_eqb_eq); exact Hc]).
    congruence.
Qed.

Lemma validate_check_overlap (pcp : PCP.t) :
  PCP.validate pcp = Ok tt -> PCP.check_overlap (PCP.charsets pcp) = Ok tt.
Proof.
  unfold PCP.validate; intros H; split_sequence H.
  repeat match goal with u : unit |- _ => destruct u end.
  reflexivity.
Qed.

(** X3.  In a policy that validates no character is in two charsets of
    the table. *)
Theorem validate_charsets_disjoint (pcp : PCP.t) (i j : nat)
  (ki kj : jsstring) (ci cj : list jsstring) (char : jsstring) :
  PCP.validate pcp = Ok tt ->
  i <> j ->
  nth_error (PCP.charsets pcp) i = Some (ki, ci) ->
  nth_error (PCP.charsets pcp) j = Some (kj, cj) ->
  has str_eqb ci char = true ->
  has str_eqb cj char = false.
Proof.
  intros H.
  apply (check_overlap_disjoint _ tt), validate_check_overlap, H.
Qed.

Lemma validate_charsets_disjoint_witness :
  PCP.validate any_length_policy = Ok tt /\
  has str_eqb (Set_of_string digits) (js "7") = true /\
  has str_eqb (Set_of_string ascii_lowercase) (js "7") = false.
Proof.
  split; [vm_compute; reflexivity|].
  split; [vm_compute; reflexivity|].
  apply (validate_charsets_disjoint any_length_policy 2 0
           (js "digits") (js "lower")
           (Set_of_string digits) (Set_of_string ascii_lowercase) (js "7")).
  - vm_compute; reflexivity.
  - lia.
  - reflexivity.
  - reflexivity.
  - vm_compute; reflexivity.
Defined.

(** X4.  A policy that validates has at least one rule and no empty
    charset. *)
Theorem validate_nonempty (pcp : PCP.t) :
  PCP.validate pcp = Ok tt ->
  PCP.rules pcp <> [] /\
  forall key charset, In (key, charset) (PCP.charsets pcp) -> charset <> [].
Proof.
  intros H; unfold PCP.validate in H; split_sequence H; split.
  - match goal with
    | E : throw_if (Z.of_nat (length (PCP.rules pcp)) <? 1) _ = Ok _ |- _ =>
        apply throw_if_Ok, Z.ltb_ge in E; intros R; rewrite R in E;
        simpl in E; lia
    end.
  - intros key charset Hin ->.
    match goal with
    | E : for_each _ (PCP.charsets pcp) = Ok _ |- _ =>
        pose proof (for_each_Ok _ _ _ E _ Hin) as F
    end.
    simpl in F; discriminate.
Qed.

Lemma validate_nonempty_witness :
  PCP.validate any_length_policy = Ok tt /\
  PCP.rules any_length_policy <> [] /\
  forall key charset,
    In (key, charset) (PCP.charsets any_length_policy) -> charset <> [].
Proof.
  split; [vm_compute; reflexivity|].
  apply (validate_nonempty any_length_policy).
  vm_compute; reflexivity.
Defined.

Lemma same_value_zero_eq (a b : number) : same_value_zero a b = true <-> a = b.
Proof.
  destruct a, b; simpl; try (split; [discriminate | congruence]);
    try (split; reflexivity).
  rewrite Z.eqb_eq; split; congruence.
Qed.

(** [o && p(o)] is false: a number that is set and truthy fails [p]. *)
Lemma when_set_false (o : option number) (p : number -> bool) :
  when_set o p = false ->
  forall v, o = Some v -> number_truthy v = true -> p v = false.
Proof. intros H v -> Hv; simpl in H; rewrite Hv in H; exact H. Qed.

(** A truthy number that is not below [b] is at least [b], unless [b]
    is [NaN]. *)
Lemma truthy_not_below (v b : number) :
  number_truthy v = true -> (v <? b)%num = false ->
  b = NaN \/ (b <=? v)%num = true.
Proof.
  intros T H. destruct (number_ltb_false _ _ H) as [->|[->|L]]; auto.
  discriminate T.
Qed.

Lemma at_least_one_truthy (v : number) :
  (1 <=? v)%num = true -> number_truthy v = true.
Proof.
  destruct v as [z| | |]; simpl; try discriminate; try reflexivity.
  intros H; apply Z.leb_le in H.
  destruct (Z.eqb_spec z 0); [lia | reflexivity].
Qed.

(** Names the test that did not throw [err]. *)
Ltac not_thrown err name :=
  match goal with
  | E : throw_if _ err = Ok _ |- _ =>
      apply throw_if_Ok in E; rename E into name
  end.

(** X5.  A rule that validates has a [min_length] that is [NaN] or at
    least 1; a [max_length] that is set and truthy is at least 1 and, unless
    [min_length] is [NaN], at least [min_length]; a [max_consecutive]
    that is set and truthy is at least 1; the names in [require] and the
    keys of [charset_requirements] are names of the charset table. *)
Theorem rule_validate_bounds (rule : PCPRule.t) (charsets : list jsstring) :
  PCPRule._validate rule charsets = Ok tt ->
  (PCPRule.min_length rule = NaN \/
   (1 <=? PCPRule.min_length rule)%num = true) /\
  (forall m, PCPRule.max_length rule = Some m -> number_truthy m = true ->
     (1 <=? m)%num = true /\
     (PCPRule.min_length rule = NaN \/
      (PCPRule.min_length rule <=? m)%num = true)) /\
  (forall m, PCPRule.max_consecutive rule = Some m ->
             number_truthy m = true -> (1 <=? m)%num = true) /\
  (forall r name, PCPRule.require rule = Some r -> In name r ->
                  In name charsets) /\
  (forall reqs key requirements,
     PCPRule.charset_requirements rule = Some reqs ->
     In (key, requirements) reqs -> In key charsets).
Proof.
  intros H.
  pose proof (rule_validate_min_length _ _ H) as Hmin.
  pose proof (rule_validate_requirement_names rule charsets) as Hkeys.
  specialize (fun reqs key requirements => Hkeys reqs key requirements H).
  assert (Hmin' : PCPRule.min_length rule = NaN \/
                  (1 <=? PCPRule.min_length rule)%num = true).
  { destruct (number_ltb_false _ _ Hmin) as [Q|[Q|Q]]; auto; discriminate. }
  unfold PCPRule._validate in H; split_sequence H.
  not_thrown PCPRule.MaxLengthLessThan1 T1.
  not_thrown PCPRule.MaxLengthLessThanMinLength T2.
  not_thrown PCPRule.MaxConsecutiveLessThan1 T3.
  split; [exact Hmin'|].
  split.
  { intros m Hm Tm.
    pose proof (when_set_false _ _ T1 m Hm Tm) as F1.
    pose proof (when_set_false _ _ T2 m Hm Tm) as F2.
    simpl in F1, F2. split.
    - destruct (truthy_not_below _ _ Tm F1) as [Q|Q]; [discriminate | exact Q].
    - destruct Hmin' as [N|L]; [left; exact N|].
      rewrite (at_least_one_truthy _ L) in F2. simpl in F2.
      destruct (truthy_not_below _ _ Tm F2) as [Q|Q]; auto. }
  split.
  { intros m Hm Tm.
    pose proof (when_set_false _ _ T3 m Hm Tm) as F.
    simpl in F.
    destruct (truthy_not_below _ _ Tm F) as [Q|Q]; [discriminate | exact Q]. }
  split.
  { intros r name Hr Hin. rewrite Hr in *.
    match goal with
    | E : throw_if (negb (isSubset _ _ _)) _ = Ok _ |- _ =>
        apply throw_if_Ok, negb_false_iff in E; unfold isSubset in E;
        destruct (size r >? size charsets); [discriminate|];
        rewrite forallb_forall in E;
        apply (has_In str_eqb str_eqb_eq), E, Hin
    end. }
  intros reqs key requirements Hreqs Hin.
  apply (has_In str_eqb str_eqb_eq), (Hkeys reqs key requirements Hreqs Hin).
Qed.

Lemma rule_validate_bounds_witness :
  PCPRule._validate full_rule (keys DEFAULT_CHARSETS) = Ok tt /\
  (PCPRule.min_length full_rule = NaN \/
   (1 <=? PCPRule.min_length full_rule)%num = true) /\
  (forall m, PCPRule.max_length full_rule = Some m ->
     number_truthy m = true ->
     (1 <=? m)%num = true /\
     (PCPRule.min_length full_rule = NaN \/
      (PCPRule.min_length full_rule <=? m)%num = true)) /\
  (forall m, PCPRule.max_consecutive full_rule = Some m ->
             number_truthy m = true -> (1 <=? m)%num = true) /\
  (forall r name, PCPRule.require full_rule = Some r -> In name r ->
                  In name (keys DEFAULT_CHARSETS)) /\
  (forall reqs key requirements,
     PCPRule.charset_requirements full_rule = Some reqs ->
     In (key, requirements) reqs -> In key (keys DEFAULT_CHARSETS)).
Proof.
  split; [vm_compute; reflexivity|].
  apply (rule_validate_bounds full_rule (keys DEFAULT_CHARSETS)).
  vm_compute; reflexivity.
Defined.

(** X6.  A subset requirement that validates has a [count] that is
    [NaN], or at least 1 and strictly below the number of its options:
    of the explicit options, which are at least two names of the table,
    or of the whole table when there are none. *)
Theorem subset_validate_bounds (this : PCPSubsetRequirement.t)
  (charsets : list jsstring) :
  PCPSubsetRequirement._validate this charsets = Ok tt ->
  (PCPSubsetRequirement.count this = NaN \/
   (1 <=? PCPSubsetRequirement.count this)%num = true) /\
  match PCPSubsetRequirement.options this with
  | Some opts =>
      2 <= size opts /\
      (PCPSubsetRequirement.count this = NaN \/
       (PCPSubsetRequirement.count this <? size opts)%num = true) /\
      forall name, In name opts -> In name charsets
  | None =>
      PCPSubsetRequirement.count this = NaN \/
      (PCPSubsetRequirement.count this <? size charsets)%num = true
  end.
Proof.
  unfold PCPSubsetRequirement._validate; intros H.
  assert (B : forall n : Z,
            (n <=? PCPSubsetRequirement.count this)%num = false ->
            PCPSubsetRequirement.count this = NaN \/
            (PCPSubsetRequirement.count this <? n)%num = true).
  { intros n F. destruct (number_leb_false _ _ F) as [Q|[Q|Q]]; auto.
    discriminate. }
  destruct (PCPSubsetRequirement.options this) as [opts|];
    split_sequence H;
    not_thrown PCPSubsetRequirement.CountLessThan1 T1.
  - not_thrown PCPSubsetRequirement.OptionsFewerThanTwo T2.
    not_thrown PCPSubsetRequirement.CountNotLessThanOptions T3.
    match goal with
    | E : throw_if _ (PCPSubsetRequirement.OptionsInvalid _) = Ok _ |- _ =>
        apply throw_if_Ok in E
    end.
    split.
    { destruct (number_ltb_false _ _ T1) as [N|[N|N]]; auto; discriminate. }
    split; [apply Z.ltb_ge in T2; exact T2|].
    split; [apply B; exact T3|].
    intros name Hin.
    match goal with
    | E : existsb _ opts = false |- _ =>
        destruct (has str_eqb charsets name) eqn:Hn;
        [ apply (has_In str_eqb str_eqb_eq); exact Hn
        | exfalso;
          assert (T : existsb (fun x => negb (has str_eqb charsets x)) opts
                      = true)
            by (apply existsb_exists; exists name; rewrite Hn; auto);
          congruence ]
    end.
  - not_thrown PCPSubsetRequirement.CountNotLessThanCharsets T3.
    split; [|apply B; exact T3].
    destruct (number_ltb_false _ _ T1) as [N|[N|N]]; auto; discriminate.
Qed.

Lemma subset_validate_bounds_witness :
  PCPSubsetRequirement._validate
    (PCPSubsetRequirement.mk 1 (Some [js "lower"; js "upper"]))
    (keys DEFAULT_CHARSETS) = Ok tt /\
  (Fin 1 = NaN \/ (1 <=? Fin 1)%num = true) /\
  2 <= size [js "lower"; js "upper"] /\
  (Fin 1 = NaN \/ (Fin 1 <? size [js "lower"; js "upper"])%num = true) /\
  forall name, In name [js "lower"; js "upper"] ->
               In name (keys DEFAULT_CHARSETS).
Proof.
  split; [vm_compute; reflexivity|].
  apply (subset_validate_bounds
           (PCPSubsetRequirement.mk 1 (Some [js "lower"; js "upper"]))
           (keys DEFAULT_CHARSETS)).
  vm_compute; reflexivity.
Defined.

(** X7.  A charset requirement that validates: the numbers that are set
    and truthy are at least 1; [max_allowed] is at least [min_required]
    and at least the number of required locations; no required location
    is prohibited. *)
Theorem charset_requirement_validate_bounds
  (this : PCPCharsetRequirement.t) (min_length : number) :
  PCPCharsetRequirement._validate this min_length = Ok tt ->
  (forall m, PCPCharsetRequirement.min_required this = Some m ->
             number_truthy m = true -> (1 <=? m)%num = true) /\
  (forall m, PCPCharsetRequirement.max_consecutive this = Some m ->
             number_truthy m = true -> (1 <=? m)%num = true) /\
  (forall m, PCPCharsetRequirement.max_allowed this = Some m ->
     number_truthy m = true ->
     (1 <=? m)%num = true /\
     (forall r, PCPCharsetRequirement.min_required this = Some r ->
                number_truthy r = true -> (r <=? m)%num = true) /\
     (forall req, PCPCharsetRequirement.required_locations this = Some req ->
                  (size req <=? m)%num = true)) /\
  (forall req pro p,
     PCPCharsetRequirement.required_locations this = Some req ->
     PCPCharsetRequirement.prohibited_locations this = Some pro ->
     In p req -> ~ In p pro).
Proof.
  unfold PCPCharsetRequirement._validate; intros H.
  split_sequence H.
  not_thrown PCPCharsetRequirement.MinRequiredLessThan1 T1.
  not_thrown PCPCharsetRequirement.MaxAllowedLessThan1 T2.
  not_thrown PCPCharsetRequirement.MaxConsecutiveLessThan1 T3.
  not_thrown PCPCharsetRequirement.LocationsOverlap T4.
  assert (B : forall o m,
            when_set o (fun v => (v <? 1)%num) = false ->
            o = Some m -> number_truthy m = true -> (1 <=? m)%num = true).
  { intros o m W Hm Tm.
    pose proof (when_set_false _ _ W m Hm Tm) as F; simpl in F.
    destruct (truthy_not_below _ _ Tm F) as [Q|Q]; [discriminate | exact Q]. }
  split; [intros m; apply (B _ m T1)|].
  split; [intros m; apply (B _ m T3)|].
  split.
  { intros m Hm Tm.
    split; [exact (B _ m T2 Hm Tm)|].
    rewrite Hm, Tm in H.
    split_sequence H.
    not_thrown PCPCharsetRequirement.MaxAllowedLessThanMinRequired T5.
    not_thrown PCPCharsetRequirement.RequiredLocationsMoreThanMaxAllowed T6.
    split.
    - intros r Hr Tr.
      pose proof (when_set_false _ _ T5 r Hr Tr) as G; simpl in G.
      destruct (truthy_not_below _ _ Tm G) as [Q|Q]; [|exact Q].
      subst r; discriminate Tr.
    - intros req Hreq. rewrite Hreq in T6.
      destruct (truthy_not_below _ _ Tm T6) as [Q|Q]; [discriminate | exact Q]. }
  intros req pro p Hreq Hpro Hin Hin'.
  rewrite Hreq, Hpro in T4.
  assert (T : existsb (has same_value_zero pro) req = true)
    by (apply existsb_exists; exists p; split;
        [exact Hin | apply (has_In same_value_zero same_value_zero_eq);
                     exact Hin']).
  congruence.
Qed.

Lemma charset_requirement_validate_bounds_witness :
  PCPCharsetRequirement._validate bounded_requirement 3 = Ok tt /\
  (forall m, PCPCharsetRequirement.min_required bounded_requirement = Some m ->
             number_truthy m = true -> (1 <=? m)%num = true) /\
  (forall m, PCPCharsetRequirement.max_consecutive bounded_requirement
             = Some m -> number_truthy m = true -> (1 <=? m)%num = true) /\
  (forall m, PCPCharsetRequirement.max_allowed bounded_requirement = Some m ->
     number_truthy m = true ->
     (1 <=? m)%num = true /\
     (forall r, PCPCharsetRequirement.min_required bounded_requirement
                = Some r -> number_truthy r = true -> (r <=? m)%num = true) /\
     (forall req, PCPCharsetRequirement.required_locations bounded_requirement
                  = Some req -> (size req <=? m)%num = true)) /\
  (forall req pro p,
     PCPCharsetRequirement.required_locations bounded_requirement = Some req ->
     PCPCharsetRequirement.prohibited_locations bounded_requirement
       = Some pro ->
     In p req -> ~ In p pro).
Proof.
  split; [vm_compute; reflexivity|].
  apply (charset_requirement_validate_bounds bounded_requirement 3).
  vm_compute; reflexivity.
Defined.



(** X9.  In a rule that validates, no name of [require] is among the
    charsets of the subset requirement (its options, or the whole table
    when the rule has no options), and a charset requirement on a name
    of either kind has no [min_required] (other than [0] and [NaN]). *)
Theorem rule_validate_no_overlap (rule : PCPRule.t)
  (charsets : list jsstring) :
  PCPRule._validate rule charsets = Ok tt ->
  (forall name,
     In name (PCPRule.require_charsets rule) ->
     ~ In name (PCPRule.subset_charsets rule charsets)) /\
  (forall reqs key requirements m,
     PCPRule.charset_requirements rule = Some reqs ->
     In (key, requirements) reqs ->
     In key (PCPRule.require_charsets rule) \/
     In key (PCPRule.subset_charsets rule charsets) ->
     PCPCharsetRequirement.min_required requirements = Some m ->
     m = Fin 0 \/ m = NaN).
Proof.
  unfold PCPRule._validate; intros H.
  split_sequence H.
  split.
  - intros name H1 H2.
    match goal with
    | E : throw_if (hasSetIntersection _ _ _) _ = Ok _ |- _ =>
        apply throw_if_Ok in E; unfold hasSetIntersection in E;
        assert (T : existsb
                      (has str_eqb (PCPRule.subset_charsets rule charsets))
                      (PCPRule.require_charsets rule) = true)
          by (apply existsb_exists; exists name; split;
              [exact H1 | apply (has_In str_eqb str_eqb_eq); exact H2]);
        congruence
    end.
  - intros reqs key requirements m Hreqs Hin Hkey Hm.
    rewrite Hreqs in H.
    pose proof (for_each_Ok _ _ _ H _ Hin) as F; simpl in F.
    assert (K : has str_eqb (PCPRule.require_charsets rule) key ||
                has str_eqb (PCPRule.subset_charsets rule charsets) key
                = true).
    { apply orb_true_iff.
      destruct Hkey as [K|K]; [left | right];
        apply (has_In str_eqb str_eqb_eq); exact K. }
    rewrite K, Hm in F; simpl in F.
    destruct m as [z| | |]; simpl in F; try discriminate F; auto.
    destruct (Z.eqb_spec z 0) as [->|]; [auto | discriminate F].
Qed.

Lemma rule_validate_no_overlap_witness :
  PCPRule._validate max_allowed_zero_rule (keys DEFAULT_CHARSETS) = Ok tt /\
  (forall name,
     In name (PCPRule.require_charsets max_allowed_zero_rule) ->
     ~ In name
         (PCPRule.subset_charsets max_allowed_zero_rule
            (keys DEFAULT_CHARSETS))) /\
  (forall reqs key requirements m,
     PCPRule.charset_requirements max_allowed_zero_rule = Some reqs ->
     In (key, requirements) reqs ->
     In key (PCPRule.require_charsets max_allowed_zero_rule) \/
     In key (PCPRule.subset_charsets max_allowed_zero_rule
               (keys DEFAULT_CHARSETS)) ->
     PCPCharsetRequirement.min_required requirements = Some m ->
     m = Fin 0 \/ m = NaN).
Proof.
  split; [vm_compute; reflexivity|].
  apply (rule_validate_no_overlap max_allowed_zero_rule
           (keys DEFAULT_CHARSETS)).
  vm_compute; reflexivity.
Defined.
(** ** Further properties: the classification of the password *)

(** X10.  The classification of a password succeeds exactly when each
    of its characters is in some charset of the table. *)
Theorem map_password_succeeds (charsets : list (jsstring * list jsstring))
  (charset_mapping : list (jsstring * nat)) (chars : list jsstring) :
  (exists mapped, map_password charsets charset_mapping chars = Some mapped)
  <->
  (forall char, In char chars ->
     exists name charset,
       In (name, charset) charsets /\ has str_eqb charset char = true).
Proof.
  induction chars as [|c chars IH]; simpl.
  - split; [intros _ char [] | intros _; eexists; reflexivity].
  - unfold classify at 1.
    destruct (find (fun kv => has str_eqb (snd kv) c) charsets)
      as [[name charset]|] eqn:F.
    + apply find_some in F; destruct F as [Fin Fhas]; simpl in Fhas.
      split.
      * intros [mapped H] char [<-|Hin]; [exists name, charset; auto|].
        destruct (map_password charsets charset_mapping chars) as [m|];
          [|discriminate].
        apply IH; [eexists; reflexivity | exact Hin].
      * intros H.
        destruct (proj2 IH (fun char Hin => H char (or_intror Hin)))
          as [m Hm].
        rewrite Hm; eexists; reflexivity.
    + split; [intros [mapped H]; discriminate|].
      intros H. destruct (H c (or_introl eq_refl)) as [name [charset [Hin Hhas]]].
      pose proof (find_none _ _ F _ Hin) as N; simpl in N; congruence.
Qed.

Lemma key_in_app {V} (m1 m2 : list (jsstring * V)) (key : jsstring) :
  key_in key (m1 ++ m2) = key_in key m1 || key_in key m2.
Proof. unfold key_in; apply existsb_app. Qed.

Lemma set_fresh {V} (obj : list (jsstring * V)) (key : jsstring) (v : V) :
  key_in key obj = false -> set obj key v = obj ++ [(key, v)].
Proof.
  induction obj as [|[k w] obj IH]; simpl; intros H; [reflexivity|].
  apply orb_false_iff in H; destruct H as [H1 H2].
  rewrite H1, (IH H2); reflexivity.
Qed.

(** On distinct names the loop of [assign_indices] numbers the names in
    their order. *)
Lemma assign_indices_fresh (names : list jsstring) :
  forall (charset_mapping : list (jsstring * nat)) (i : nat),
    NoDup names ->
    (forall name, In name names -> key_in name charset_mapping = false) ->
    assign_indices charset_mapping i names
    = charset_mapping ++ combine names (seq i (length names)).
Proof.
  induction names as [|name names IH]; simpl; intros m i N F.
  - rewrite app_nil_r; reflexivity.
  - inversion N as [|? ? Hnot N']; subst.
    rewrite (set_fresh m name i) by (apply F; auto).
    rewrite IH; [rewrite <- app_assoc; reflexivity | exact N' |].
    intros n Hn. rewrite key_in_app, (F n (or_intror Hn)); simpl.
    rewrite orb_false_r.
    destruct (str_eqb name n) eqn:E; [|reflexivity].
    apply str_eqb_eq in E; subst; contradiction.
Qed.

Lemma get_combine_seq (names : list jsstring) :
  forall (s k : nat) (name : jsstring),
    NoDup names ->
    nth_error names k = Some name ->
    get (combine names (seq s (length names))) name = Some (s + k)%nat.
Proof.
  induction names as [|n names IH]; intros s k name N H.
  - destruct k; discriminate.
  - inversion N as [|? ? Hnot N']; subst. simpl.
    destruct k as [|k]; simpl in H.
    + inversion H; subst. rewrite str_eqb_refl, Nat.add_0_r; reflexivity.
    + destruct (str_eqb n name) eqn:E.
      * apply str_eqb_eq in E; subst. apply nth_error_In in H; contradiction.
      * rewrite (IH (S s) k name N' H). f_equal; lia.
Qed.

(** With distinct names, the index of a charset is its place in the
    table. *)
Lemma charset_index_position (pcp : PCP.t) (i : nat) (name : jsstring)
  (charset : list jsstring) :
  NoDup (keys (PCP.charsets pcp)) ->
  nth_error (PCP.charsets pcp) i = Some (name, charset) ->
  get (charset_mapping_of pcp) name = Some i.
Proof.
  intros N H. unfold charset_mapping_of.
  rewrite assign_indices_fresh; [|exact N | reflexivity]. simpl.
  apply (get_combine_seq _ 0 i name N).
  unfold keys; rewrite nth_error_map, H; reflexivity.
Qed.

Lemma classify_position (pcp : PCP.t) (char : jsstring) (v : jsval) :
  NoDup (keys (PCP.charsets pcp)) ->
  classify (PCP.charsets pcp) (charset_mapping_of pcp) char = Some v ->
  exists i name charset,
    v = Some i /\
    nth_error (PCP.charsets pcp) i = Some (name, charset) /\
    has str_eqb charset char = true.
Proof.
  intros N; unfold classify.
  destruct (find (fun kv => has str_eqb (snd kv) char) (PCP.charsets pcp))
    as [[name charset]|] eqn:F; [|discriminate].
  intros H; inversion H; subst; clear H.
  apply find_some in F; destruct F as [Fin Fhas]; simpl in Fhas.
  destruct (In_nth_error _ _ Fin) as [i Hi].
  exists i, name, charset.
  rewrite (charset_index_position pcp i name charset N Hi); auto.
Qed.

Lemma map_password_nth charsets charset_mapping chars :
  forall mapped k,
    map_password charsets charset_mapping chars = Some mapped ->
    (forall char, nth_error chars k = Some char ->
       exists v, nth_error mapped k = Some v /\
                 classify charsets charset_mapping char = Some v) /\
    (forall v, nth_error mapped k = Some v ->
       exists char, nth_error chars k = Some char /\
                    classify charsets charset_mapping char = Some v).
Proof.
  induction chars as [|c chars IH]; simpl; intros mapped k H.
  - inversion H; subst; split; intros x Hx; destruct k; discriminate.
  - destruct (classify charsets charset_mapping c) as [v0|] eqn:C;
      [|discriminate].
    destruct (map_password charsets charset_mapping chars) as [m|];
      [|discriminate].
    inversion H; subst; clear H.
    destruct k as [|k]; simpl.
    + split; intros x Hx; inversion Hx; subst; eauto.
    + apply (IH m k eq_refl).
Qed.

Lemma classified_at (pcp : PCP.t) (chars : list jsstring)
  (mapped : list jsval) (k : nat) (char : jsstring) :
  PCP.validate pcp = Ok tt ->
  NoDup (keys (PCP.charsets pcp)) ->
  map_password (PCP.charsets pcp) (charset_mapping_of pcp) chars
    = Some mapped ->
  nth_error chars k = Some char ->
  exists i name charset,
    nth_error mapped k = Some (Some i) /\
    nth_error (PCP.charsets pcp) i = Some (name, charset) /\
    has str_eqb charset char = true /\
    forall j name' charset',
      nth_error (PCP.charsets pcp) j = Some (name', charset') ->
      has str_eqb charset' char = true -> j = i.
Proof.
  intros Hv N Hmap Hk.
  destruct (proj1 (map_password_nth _ _ _ _ k Hmap) _ Hk) as [v [Hv1 Hc]].
  destruct (classify_position pcp char v N Hc)
    as [i [name [charset [-> [Hi Hhas]]]]].
  exists i, name, charset; repeat split; auto.
  intros j name' charset' Hj Hhas'.
  destruct (Nat.eq_dec i j) as [E|E]; [auto|].
  pose proof (check_overlap_disjoint _ tt i j name name' charset charset' char
                (validate_check_overlap _ Hv) E Hi Hj Hhas).
  congruence.
Qed.

(** X11.  On a policy that validates, whose charset names are distinct,
    the index computed for a character of the password is the place in
    the table of the one charset that has the character. *)
Theorem classification_unambiguous (pcp : PCP.t) (password : jsstring)
  (mapped_password : list jsval) (k : nat) (char : jsstring) :
  PCP.validate pcp = Ok tt ->
  NoDup (keys (PCP.charsets pcp)) ->
  map_password (PCP.charsets pcp) (charset_mapping_of pcp)
    (chars_of password) = Some mapped_password ->
  nth_error (chars_of password) k = Some char ->
  exists i name charset,
    nth_error mapped_password k = Some (Some i) /\
    nth_error (PCP.charsets pcp) i = Some (name, charset) /\
    has str_eqb charset char = true /\
    forall j name' charset',
      nth_error (PCP.charsets pcp) j = Some (name', charset') ->
      has str_eqb charset' char = true -> j = i.
Proof. apply classified_at. Qed.

Lemma classification_unambiguous_witness :
  PCP.validate any_length_policy = Ok tt /\
  exists i name charset,
    nth_error [Some 1%nat; Some 2%nat] 1 = Some (Some i) /\
    nth_error (PCP.charsets any_length_policy) i = Some (name, charset) /\
    has str_eqb charset (js "7") = true /\
    forall j name' charset',
      nth_error (PCP.charsets any_length_policy) j = Some (name', charset') ->
      has str_eqb charset' (js "7") = true -> j = i.
Proof.
  split; [vm_compute; reflexivity|].
  apply (classification_unambiguous any_length_policy (js "A7")
           [Some 1%nat; Some 2%nat] 1 (js "7")).
  - vm_compute; reflexivity.
  - vm_compute; distinct_literals.
  - vm_compute; reflexivity.
  - reflexivity.
Defined.

Lemma jsval_eqb_eq (a b : jsval) : jsval_eqb a b = true <-> a = b.
Proof.
  destruct a, b; simpl; try (split; congruence).
  rewrite Nat.eqb_eq; split; congruence.
Qed.

(** X12.  On a policy that validates, whose charset names are distinct,
    the test of [require] for a name of the table,
    [mapped_password.includes(charset_mapping[name])], holds exactly
    when some character of the password is in the charset of that
    name. *)
Theorem require_test_presence (pcp : PCP.t) (password : jsstring)
  (mapped_password : list jsval) (name : jsstring)
  (charset : list jsstring) :
  PCP.validate pcp = Ok tt ->
  NoDup (keys (PCP.charsets pcp)) ->
  map_password (PCP.charsets pcp) (charset_mapping_of pcp)
    (chars_of password) = Some mapped_password ->
  In (name, charset) (PCP.charsets pcp) ->
  (has jsval_eqb mapped_password (get (charset_mapping_of pcp) name) = true
   <->
   exists char,
     In char (chars_of password) /\ has str_eqb charset char = true).
Proof.
  intros Hv N Hmap Hin.
  destruct (In_nth_error _ _ Hin) as [p Hp].
  rewrite (charset_index_position pcp p name charset N Hp).
  rewrite (has_In jsval_eqb jsval_eqb_eq).
  split.
  - intros Hm. destruct (In_nth_error _ _ Hm) as [k Hk].
    destruct (proj2 (map_password_nth _ _ _ _ k Hmap) _ Hk)
      as [char [Hchar _]].
    destruct (classified_at pcp _ _ k char Hv N Hmap Hchar)
      as [i [name' [charset' [Hk' [Hi [Hhas _]]]]]].
    rewrite Hk in Hk'; inversion Hk'; subst i.
    rewrite Hp in Hi; inversion Hi; subst.
    exists char; split; [exact (nth_error_In _ _ Hchar) | exact Hhas].
  - intros [char [Hchar Hhas]].
    destruct (In_nth_error _ _ Hchar) as [k Hk].
    destruct (classified_at pcp _ _ k char Hv N Hmap Hk)
      as [i [name' [charset' [Hk' [Hi [_ U]]]]]].
    rewrite (U p name charset Hp Hhas).
    exact (nth_error_In _ _ Hk').
Qed.

Lemma require_test_presence_witness :
  PCP.validate any_length_policy = Ok tt /\
  (has jsval_eqb [Some 1%nat; Some 2%nat]
     (get (charset_mapping_of any_length_policy) (js "digits")) = true
   <->
   exists char,
     In char (chars_of (js "A7")) /\
     has str_eqb (Set_of_string digits) char = true).
Proof.
  split; [vm_compute; reflexivity|].
  apply (require_test_presence any_length_policy (js "A7")
           [Some 1%nat; Some 2%nat] (js "digits") (Set_of_string digits)).
  - vm_compute; reflexivity.
  - vm_compute; distinct_literals.
  - vm_compute; reflexivity.
  - vm_compute; right; right; left; reflexivity.
Defined.

(** ** Further properties: the evaluation of the rules *)


(** X13.  On a policy that validates, [check] answers [true] exactly
    when it answers [true] on the policy of one of the rules alone: the
    rules are alternatives, in whatever order. *)
Theorem check_password_some_rule (password : jsstring) (pcp : PCP.t) :
  PCP.validate pcp = Ok tt ->
  (check_password password pcp = Ok true <->
   exists rule,
     In rule (PCP.rules pcp) /\
     check_password password (PCP.mk [rule] (PCP.charsets pcp)) = Ok true).
Proof.
  intros Hv. destruct pcp as [rules charsets]; simpl.
  assert (S1 : forall rule, In rule rules ->
                 PCP.validate (PCP.mk [rule] charsets) = Ok tt)
    by (intros rule Hin; exact (validate_single_rule _ _ _ Hv Hin)).
  unfold check_password; rewrite Hv; simpl.
  destruct (map_password charsets (assign_indices [] 0 (keys charsets))
              (chars_of password)) as [mapped|].
  - split.
    + intros H; injection H as T. apply existsb_exists in T.
      destruct T as [rule [Hin Hr]].
      exists rule; split; [exact Hin|].
      rewrite (S1 rule Hin), Hr; reflexivity.
    + intros [rule [Hin H]]. rewrite (S1 rule Hin) in H.
      injection H as T. rewrite orb_false_r in T.
      f_equal. apply existsb_exists; exists rule; auto.
  - split; [discriminate|].
    intros [rule [Hin H]]. rewrite (S1 rule Hin) in H; discriminate.
Qed.

Lemma check_password_some_rule_witness :
  PCP.validate
    (PCP.mk [rule_of_min_length 8; rule_of_min_length 1] DEFAULT_CHARSETS)
    = Ok tt /\
  (check_password (js "abc")
     (PCP.mk [rule_of_min_length 8; rule_of_min_length 1] DEFAULT_CHARSETS)
   = Ok true <->
   exists rule,
     In rule [rule_of_min_length 8; rule_of_min_length 1] /\
     check_password (js "abc") (PCP.mk [rule] DEFAULT_CHARSETS) = Ok true).
Proof.
  split; [vm_compute; reflexivity|].
  apply (check_password_some_rule (js "abc")
           (PCP.mk [rule_of_min_length 8; rule_of_min_length 1]
              DEFAULT_CHARSETS)).
  vm_compute; reflexivity.
Defined.



(** X25.  On a policy that validates and has no rule whose [min_length]
    is [NaN], [check] of the empty password is [false]. *)
Theorem empty_password_rejected (pcp : PCP.t) :
  PCP.validate pcp = Ok tt ->
  (forall rule, In rule (PCP.rules pcp) -> PCPRule.min_length rule <> NaN) ->
  check_password [] pcp = Ok false.
Proof.
  intros Hv Hnan.
  unfold check_password; rewrite Hv; simpl.
  f_equal. apply not_true_is_false; intros T.
  apply existsb_exists in T; destruct T as [rule [Hin T]].
  pose proof (rule_validate_min_length _ _ (validate_rules _ _ Hv Hin)) as Hm.
  specialize (Hnan rule Hin).
  unfold check_password_against_rule in T.
  assert (L : (js_length [] <? PCPRule.min_length rule)%num = true).
  { destruct (PCPRule.min_length rule) as [z| | |];
      try discriminate Hm; try congruence; [|reflexivity].
    simpl in Hm; apply Z.ltb_ge in Hm.
    unfold js_length; simpl. apply Z.ltb_lt; lia. }
  rewrite L in T; discriminate.
Qed.

Lemma empty_password_rejected_witness :
  PCP.validate any_length_policy = Ok tt /\
  check_password [] any_length_policy = Ok false.
Proof.
  split; [vm_compute; reflexivity|].
  apply (empty_password_rejected any_length_policy).
  - vm_compute; reflexivity.
  - intros rule Hin. vm_compute in Hin.
    destruct Hin as [<-|[]]. discriminate.
Defined.

Lemma consecutive_ok_prefix (max_consecutive : Z) (pre rest : list jsstring) :
  forall last_char consecutive_count,
    0 <= consecutive_count <= max_consecutive ->
    consecutive_ok (Fin max_consecutive) last_char consecutive_count
      (pre ++ rest) = true ->
    1 <= max_consecutive ->
    exists last_char' consecutive_count',
      0 <= consecutive_count' <= max_consecutive /\
      consecutive_ok (Fin max_consecutive) last_char' consecutive_count' rest
      = true.
Proof.
  induction pre as [|c pre IH]; simpl; intros last cnt B H M.
  - exists last, cnt; auto.
  - destruct (str_eqb c last).
    + destruct (Z.ltb_spec max_consecutive (cnt + 1)); [discriminate|].
      apply (IH last (cnt + 1)); [lia | exact H | exact M].
    + apply (IH c 1); [lia | exact H | exact M].
Qed.

Lemma consecutive_ok_run (max_consecutive : Z) (c : jsstring)
  (post : list jsstring) (n : nat) :
  forall last_char consecutive_count,
    consecutive_count <= max_consecutive ->
    1 <= max_consecutive ->
    consecutive_ok (Fin max_consecutive) last_char consecutive_count
      (repeat c n ++ post) = true ->
    (str_eqb c last_char = true ->
     consecutive_count + Z.of_nat n <= max_consecutive) /\
    (str_eqb c last_char = false -> Z.of_nat n <= max_consecutive).
Proof.
  induction n as [|n IH]; intros last cnt B M H.
  - simpl; split; intros; lia.
  - simpl in H. destruct (str_eqb c last) eqn:E.
    + destruct (Z.ltb_spec max_consecutive (cnt + 1)); [discriminate|].
      destruct (IH last (cnt + 1) ltac:(lia) M H) as [I _].
      split; [intros _; specialize (I E); lia | discriminate].
    + destruct (IH c 1 ltac:(lia) M H) as [I _].
      split; [discriminate | intros _].
      specialize (I (str_eqb_refl c)); lia.
Qed.

(** X15.  A password that a rule with [max_consecutive = m >= 1]
    accepts has no run of more than [m] times the same character. *)
Theorem max_consecutive_bounds_runs (password : jsstring) (rule : PCPRule.t)
  (charset_mapping : list (jsstring * nat)) (mapped_password : list jsval)
  (m : number) (pre post : list jsstring) (c : jsstring) (n : nat) :
  check_password_against_rule password rule charset_mapping mapped_password
    = true ->
  PCPRule.max_consecutive rule = Some m ->
  (1 <=? m)%num = true ->
  chars_of password = pre ++ repeat c n ++ post ->
  (Z.of_nat n <=? m)%num = true.
Proof.
  intros H Hm M Hrun.
  unfold check_password_against_rule in H.
  rewrite Hm, Hrun in H.
  destruct (js_length password <? PCPRule.min_length rule)%num;
    [discriminate|].
  destruct (when_set (PCPRule.max_length rule) _); [discriminate|].
  rewrite (at_least_one_truthy _ M) in H. simpl in H.
  destruct m as [z| | |]; try discriminate M; [|reflexivity].
  simpl in M; apply Z.leb_le in M. simpl; apply Z.leb_le.
  destruct (consecutive_ok (Fin z) [] 0 (pre ++ repeat c n ++ post)) eqn:C;
    [|discriminate].
  destruct (consecutive_ok_prefix z pre _ [] 0 ltac:(lia) C M)
    as [last [cnt [B C']]].
  destruct (consecutive_ok_run z c post n last cnt ltac:(lia) M C') as [I1 I2].
  destruct (str_eqb c last); [specialize (I1 eq_refl) | specialize (I2 eq_refl)];
    lia.
Qed.

Lemma max_consecutive_bounds_runs_witness :
  check_password_against_rule (js "aabbcc")
    (PCPRule.mk 4 None (Some (Fin 2)) None None None None) [] [] = true /\
  (Z.of_nat 2 <=? Fin 2)%num = true.
Proof.
  split; [vm_compute; reflexivity|].
  apply (max_consecutive_bounds_runs (js "aabbcc")
           (PCPRule.mk 4 None (Some (Fin 2)) None None None None) [] [] 2
           [js "a"; js "a"] [js "c"; js "c"] (js "b") 2).
  - vm_compute; reflexivity.
  - reflexivity.
  - reflexivity.
  - vm_compute; reflexivity.
Defined.

Lemma starts_with_prefix (s p : jsstring) :
  starts_with s p = true <-> exists post, s = p ++ post.
Proof.
  revert s; induction p as [|y p IH]; intros [|x s]; simpl.
  - split; [intros _; exists []; reflexivity | reflexivity].
  - split; [intros _; exists (x :: s); reflexivity | reflexivity].
  - split; [discriminate | intros [post H]; discriminate].
  - rewrite andb_true_iff, N.eqb_eq, IH; split.
    + intros [-> [post ->]]; exists post; reflexivity.
    + intros [post H]; inversion H; subst; split; [reflexivity|eauto].
Qed.

(** [includes] answers [true] exactly on a contiguous occurrence. *)
Lemma includes_occurrence (password s : jsstring) :
  includes password s = true <->
  exists pre post, password = pre ++ s ++ post.
Proof.
  induction password as [|x password IH]; cbn [includes].
  - rewrite orb_false_r, starts_with_prefix; split.
    + intros [post H]; exists [], post; exact H.
    + intros [pre [post H]]. destruct pre; [exists post; exact H|discriminate].
  - rewrite orb_true_iff, starts_with_prefix, IH; split.
    + intros [[post H]|[pre [post H]]].
      * exists [], post; exact H.
      * exists (x :: pre), post; rewrite H; reflexivity.
    + intros [[|y pre] [post H]].
      * left; exists post; exact H.
      * right; inversion H; subst; eauto.
Qed.

(** X16.  A password that a rule accepts has no contiguous occurrence
    of a prohibited substring; a rule that prohibits the empty string
    accepts no password. *)
Theorem prohibited_substrings_absent (password : jsstring)
  (rule : PCPRule.t) (charset_mapping : list (jsstring * nat))
  (mapped_password : list jsval) (subs : list jsstring) (s : jsstring) :
  check_password_against_rule password rule charset_mapping mapped_password
    = true ->
  PCPRule.prohibited_substrings rule = Some subs ->
  In s subs ->
  s <> [] /\ forall pre post, password <> pre ++ s ++ post.
Proof.
  intros H Hsubs Hin.
  unfold check_password_against_rule in H. rewrite Hsubs in H.
  destruct (js_length password <? PCPRule.min_length rule)%num;
    [discriminate|].
  destruct (when_set (PCPRule.max_length rule) _); [discriminate|].
  destruct (match PCPRule.max_consecutive rule with
            | Some m => _ | None => false end); [discriminate|].
  destruct (existsb (includes password) subs) eqn:E; [discriminate|].
  assert (N : includes password s = false).
  { destruct (includes password s) eqn:I; [|reflexivity].
    assert (existsb (includes password) subs = true)
      by (apply existsb_exists; exists s; auto).
    congruence. }
  assert (O : forall pre post, password <> pre ++ s ++ post).
  { intros pre post Hocc.
    assert (includes password s = true)
      by (apply includes_occurrence; eauto).
    congruence. }
  split; [|exact O].
  intros ->. apply (O [] password); reflexivity.
Qed.

Lemma prohibited_substrings_absent_witness :
  check_password_against_rule (js "mypassword")
    (PCPRule.mk 5 None None (Some [js "admin"]) None None None) [] [] = true /\
  js "admin" <> [] /\
  forall pre post, js "mypassword" <> pre ++ js "admin" ++ post.
Proof.
  split; [vm_compute; reflexivity|].
  apply (prohibited_substrings_absent (js "mypassword")
           (PCPRule.mk 5 None None (Some [js "admin"]) None None None) [] []
           [js "admin"] (js "admin")).
  - vm_compute; reflexivity.
  - reflexivity.
  - simpl; left; reflexivity.
Defined.

(** X18.  The locations of a charset requirement, for an integer
    location.  A required location other than [0] is read at its index,
    counted from the end when it is negative.  A prohibited location
    outside the password never rejects, and a negative one within the
    password is the location counted from the start. *)
Theorem location_tests (password : jsstring) (mapped_password : list jsval)
  (charset_index : jsval) (location : Z) :
  (location <> 0 ->
   required_location_fails password mapped_password charset_index
     (Fin location)
   = negb (jsval_eqb
             (at_index mapped_password
                (if location >=? 0 then Fin location
                 else Fin (js_length password + location)))
             charset_index)) /\
  (js_length password <= location \/ location < - js_length password ->
   prohibited_location_fails password mapped_password charset_index
     (Fin location)
   = false) /\
  (- js_length password <= location < 0 ->
   prohibited_location_fails password mapped_password charset_index
     (Fin location)
   = prohibited_location_fails password mapped_password charset_index
       (Fin (js_length password + location))).
Proof.
  unfold required_location_fails, prohibited_location_fails, length_plus.
  simpl. rewrite Z.geb_leb.
  repeat split.
  - intros H. destruct (Z.leb_spec 0 location); destruct (Z.leb_spec location 0);
      simpl; try lia; rewrite ?orb_false_r; reflexivity.
  - intros H. destruct (Z.leb_spec 0 location); simpl.
    + destruct (Z.leb_spec 0 location); [|lia].
      destruct (Z.ltb_spec location (js_length password)); [lia|].
      reflexivity.
    + destruct (Z.leb_spec 0 (js_length password + location)); [lia|].
      reflexivity.
  - intros H. destruct (Z.leb_spec 0 location); [lia|].
    assert (E : (0 <=? js_length password + location) = true)
      by (apply Z.leb_le; lia).
    simpl; rewrite ?E; simpl; rewrite ?E; reflexivity.
Qed.

Lemma location_tests_witness :
  (-1 <> 0 ->
   required_location_fails (js "a1") [Some 0%nat; Some 2%nat] (Some 2%nat)
     (Fin (-1))
   = negb (jsval_eqb
             (at_index [Some 0%nat; Some 2%nat]
                (if -1 >=? 0 then Fin (-1)
                 else Fin (js_length (js "a1") + -1)))
             (Some 2%nat))) /\
  (js_length (js "a1") <= -1 \/ -1 < - js_length (js "a1") ->
   prohibited_location_fails (js "a1") [Some 0%nat; Some 2%nat]
     (Some 2%nat) (Fin (-1)) = false) /\
  (- js_length (js "a1") <= -1 < 0 ->
   prohibited_location_fails (js "a1") [Some 0%nat; Some 2%nat]
     (Some 2%nat) (Fin (-1))
   = prohibited_location_fails (js "a1") [Some 0%nat; Some 2%nat]
       (Some 2%nat) (Fin (js_length (js "a1") + -1))).
Proof.
  apply (location_tests (js "a1") [Some 0%nat; Some 2%nat] (Some 2%nat) (-1)).
Defined.

(** X19.  A [max_length] of [0] is no bound: the rule validates and
    evaluates as the rule without [max_length]. *)
Theorem max_length_zero_ignored (rule : PCPRule.t)
  (charsets : list jsstring) (password : jsstring)
  (charset_mapping : list (jsstring * nat)) (mapped_password : list jsval) :
  PCPRule.max_length rule = Some (Fin 0) ->
  let unbounded :=
    PCPRule.mk (PCPRule.min_length rule) None (PCPRule.max_consecutive rule)
      (PCPRule.prohibited_substrings rule) (PCPRule.require rule)
      (PCPRule.require_subset rule) (PCPRule.charset_requirements rule) in
  PCPRule._validate rule charsets = PCPRule._validate unbounded charsets /\
  check_password_against_rule password rule charset_mapping mapped_password
  = check_password_against_rule password unbounded charset_mapping
      mapped_password.
Proof.
  intros H unbounded; subst unbounded.
  unfold PCPRule._validate, check_password_against_rule,
    PCPRule.require_charsets, PCPRule.subset_charsets.
  simpl. rewrite H. simpl. split; reflexivity.
Qed.

Lemma max_length_zero_ignored_witness :
  PCPRule._validate (PCPRule.mk 1 (Some (Fin 0)) None None None None None)
    (keys DEFAULT_CHARSETS)
  = PCPRule._validate (PCPRule.mk 1 None None None None None None)
      (keys DEFAULT_CHARSETS) /\
  check_password_against_rule (js "abc")
    (PCPRule.mk 1 (Some (Fin 0)) None None None None None) [] []
  = check_password_against_rule (js "abc")
      (PCPRule.mk 1 None None None None None None) [] [].
Proof.
  apply (max_length_zero_ignored
           (PCPRule.mk 1 (Some (Fin 0)) None None None None None)
           (keys DEFAULT_CHARSETS) (js "abc") [] []).
  reflexivity.
Defined.

(** X20.  A [max_allowed] of [0] does not forbid the charset: the
    charset requirement validates and evaluates as the requirement
    without [max_allowed]. *)
Theorem max_allowed_zero_ignored (this : PCPCharsetRequirement.t)
  (min_length : number) (password : jsstring)
  (charset_mapping : list (jsstring * nat)) (mapped_password : list jsval)
  (charset : jsstring) :
  PCPCharsetRequirement.max_allowed this = Some (Fin 0) ->
  let unbounded :=
    PCPCharsetRequirement.mk (PCPCharsetRequirement.min_required this) None
      (PCPCharsetRequirement.max_consecutive this)
      (PCPCharsetRequirement.required_locations this)
      (PCPCharsetRequirement.prohibited_locations this) in
  PCPCharsetRequirement._validate this min_length
  = PCPCharsetRequirement._validate unbounded min_length /\
  check_charset_requirement password charset_mapping mapped_password charset
    this
  = check_charset_requirement password charset_mapping mapped_password
      charset unbounded.
Proof.
  intros H unbounded; subst unbounded.
  unfold PCPCharsetRequirement._validate, check_charset_requirement.
  simpl. rewrite H. simpl. split; reflexivity.
Qed.

Lemma max_allowed_zero_ignored_witness :
  PCPCharsetRequirement._validate
    (PCPCharsetRequirement.mk None (Some (Fin 0)) None None None) 1
  = PCPCharsetRequirement._validate
      (PCPCharsetRequirement.mk None None None None None) 1 /\
  check_charset_requirement (js "a") [(js "lower", 0%nat)] [Some 0%nat]
    (js "lower") (PCPCharsetRequirement.mk None (Some (Fin 0)) None None None)
  = check_charset_requirement (js "a") [(js "lower", 0%nat)] [Some 0%nat]
      (js "lower") (PCPCharsetRequirement.mk None None None None None).
Proof.
  apply (max_allowed_zero_ignored
           (PCPCharsetRequirement.mk None (Some (Fin 0)) None None None) 1
           (js "a") [(js "lower", 0%nat)] [Some 0%nat] (js "lower")).
  reflexivity.
Defined.

(** ** Further properties: the counts of a charset requirement *)

(** On a policy that validates, whose charset names are distinct, the
    indices equal to the index of a charset are as many as the characters
    of that charset. *)
Lemma count_classified (pcp : PCP.t) (p : nat) (name : jsstring)
  (charset : list jsstring) :
  PCP.validate pcp = Ok tt ->
  NoDup (keys (PCP.charsets pcp)) ->
  nth_error (PCP.charsets pcp) p = Some (name, charset) ->
  forall chars mapped,
    map_password (PCP.charsets pcp) (charset_mapping_of pcp) chars
      = Some mapped ->
    length (filter (fun c => jsval_eqb c (Some p)) mapped)
    = length (filter (has str_eqb charset) chars).
Proof.
  intros Hv N Hp.
  induction chars as [|char chars IH]; simpl; intros mapped H.
  - inversion H; reflexivity.
  - destruct (classify (PCP.charsets pcp) (charset_mapping_of pcp) char)
      as [v|] eqn:C; [|discriminate].
    destruct (map_password (PCP.charsets pcp) (charset_mapping_of pcp) chars)
      as [m|]; [|discriminate].
    inversion H; subst; clear H. simpl.
    specialize (IH m eq_refl).
    destruct (classify_position pcp char v N C)
      as [i [name' [charset' [-> [Hi Hhas]]]]].
    simpl. destruct (Nat.eqb_spec i p) as [->|Hne].
    + rewrite Hp in Hi; inversion Hi; subst.
      rewrite Hhas; simpl; rewrite IH; reflexivity.
    + rewrite (check_overlap_disjoint _ tt i p name' name charset' charset char
                 (validate_check_overlap _ Hv) Hne Hi Hp Hhas).
      exact IH.
Qed.

(** X17.  On a policy that validates, whose charset names are distinct,
    a password that a rule accepts has, for each charset requirement of
    the rule, at least [min_required] and at most [max_allowed]
    characters of the charset (for the bounds that are set and truthy:
    neither [0] nor [NaN]). *)
Theorem charset_count_bounds (pcp : PCP.t) (password : jsstring)
  (mapped_password : list jsval) (rule : PCPRule.t)
  (reqs : list (jsstring * PCPCharsetRequirement.t)) (name : jsstring)
  (requirements : PCPCharsetRequirement.t) (charset : list jsstring) :
  PCP.validate pcp = Ok tt ->
  NoDup (keys (PCP.charsets pcp)) ->
  map_password (PCP.charsets pcp) (charset_mapping_of pcp)
    (chars_of password) = Some mapped_password ->
  check_password_against_rule password rule (charset_mapping_of pcp)
    mapped_password = true ->
  PCPRule.charset_requirements rule = Some reqs ->
  In (name, requirements) reqs ->
  In (name, charset) (PCP.charsets pcp) ->
  (forall m, PCPCharsetRequirement.min_required requirements = Some m ->
             number_truthy m = true ->
             (m <=? size (filter (has str_eqb charset) (chars_of password)))
               %num = true) /\
  (forall m, PCPCharsetRequirement.max_allowed requirements = Some m ->
             number_truthy m = true ->
             (size (filter (has str_eqb charset) (chars_of password)) <=? m)
               %num = true).
Proof.
  intros Hv N Hmap Hacc Hreqs Hin Hcs.
  destruct (In_nth_error _ _ Hcs) as [p Hp].
  pose proof (count_classified pcp p name charset Hv N Hp _ _ Hmap) as Hcount.
  pose proof (charset_index_position pcp p name charset N Hp) as Hidx.
  unfold check_password_against_rule in Hacc. rewrite Hreqs in Hacc.
  repeat match type of Hacc with
         | (if ?c then false else _) = true =>
             destruct c; [discriminate Hacc|]
         end.
  rewrite forallb_forall in Hacc. specialize (Hacc _ Hin).
  cbn [fst snd] in Hacc.
  unfold check_charset_requirement in Hacc. rewrite Hidx in Hacc.
  unfold size in *. rewrite Hcount in Hacc.
  destruct (when_set (PCPCharsetRequirement.min_required requirements) _)
    eqn:W1; [discriminate Hacc|].
  destruct (when_set (PCPCharsetRequirement.max_allowed requirements) _)
    eqn:W2; [discriminate Hacc|].
  split; intros m Hm Hm0.
  - pose proof (when_set_false _ _ W1 m Hm Hm0) as F; cbv beta in F.
    destruct (number_ltb_false _ _ F) as [E|[->|L]];
      [discriminate E | discriminate Hm0 | exact L].
  - pose proof (when_set_false _ _ W2 m Hm Hm0) as F; cbv beta in F.
    destruct (number_ltb_false _ _ F) as [->|[E|L]];
      [discriminate Hm0 | discriminate E | exact L].
Qed.

Lemma charset_count_bounds_witness :
  PCP.validate digits_policy = Ok tt /\
  (forall m, PCPCharsetRequirement.min_required two_digits = Some m ->
             number_truthy m = true ->
             (m <=? size (filter (has str_eqb (Set_of_string digits))
                            (chars_of (js "a12"))))%num = true) /\
  (forall m, PCPCharsetRequirement.max_allowed two_digits = Some m ->
             number_truthy m = true ->
             (size (filter (has str_eqb (Set_of_string digits))
                      (chars_of (js "a12"))) <=? m)%num = true).
Proof.
  split; [vm_compute; reflexivity|].
  apply (charset_count_bounds digits_policy (js "a12")
           [Some 0%nat; Some 2%nat; Some 2%nat] digits_rule
           [(js "digits", two_digits)] (js "digits") two_digits
           (Set_of_string digits)).
  - vm_compute; reflexivity.
  - vm_compute; distinct_literals.
  - vm_compute; reflexivity.
  - vm_compute; reflexivity.
  - reflexivity.
  - simpl; left; reflexivity.
  - vm_compute; right; right; left; reflexivity.
Defined.
(** ** Further properties: the serializer *)

(** X21.  [parse] reads a bare rule as it reads the same rule wrapped in
    a [rules] array: a payload without [rules] and without [charsets] is
    the policy of that one rule. *)
Theorem parse_bare_rule (data : list (jsstring * json)) :
  get data (js "rules") = None ->
  get data (js "charsets") = None ->
  PCP.parse (JObject data)
  = PCP.parse (JObject [(js "rules", JArray [JObject data])]).
Proof.
  intros Hr Hc.
  unfold PCP.parse, present. rewrite Hr, Hc.
  change (get [(js "rules", JArray [JObject data])] (js "rules"))
    with (Some (JArray [JObject data])).
  change (get [(js "rules", JArray [JObject data])] (js "charsets"))
    with (@None json).
  cbn [truthy PCP.rules_from_json].
  destruct (PCPRule._from_json (JObject data)); reflexivity.
Qed.

Lemma parse_bare_rule_witness :
  PCP.parse (JObject [(js "min_length", JNumber 8)])
  = PCP.parse
      (JObject [(js "rules", JArray [JObject [(js "min_length", JNumber 8)]])]).
Proof.
  apply (parse_bare_rule [(js "min_length", JNumber 8)]).
  - reflexivity.
  - reflexivity.
Defined.

Lemma set_In {V} (obj : list (jsstring * V)) (key : jsstring) (v : V)
  (k : jsstring) (w : V) :
  In (k, w) (set obj key v) -> In (k, w) obj \/ w = v.
Proof.
  induction obj as [|[k0 w0] obj IH]; simpl.
  - intros [H|[]]; inversion H; auto.
  - destruct (str_eqb k0 key); simpl.
    + intros [H|H]; [inversion H; auto | auto].
    + intros [H|H]; [auto | destruct (IH H); auto].
Qed.

Lemma apply_charsets_entries (entries : list (jsstring * json)) :
  forall charsets result name charset,
    PCP.apply_charsets charsets entries = Some result ->
    In (name, charset) result ->
    charset = [] \/ In (name, charset) charsets.
Proof.
  induction entries as [|[key value] entries IH]; simpl;
    intros charsets result name charset H Hin.
  - inversion H; subst; auto.
  - destruct value; try discriminate.
    + destruct (IH _ _ _ _ H Hin) as [E|I]; [auto|].
      right; unfold delete in I; apply filter_In in I; tauto.
    + destruct (js_length s >? 0) eqn:L.
      * destruct (IH _ _ _ _ H Hin) as [E|I]; [auto|].
        right; unfold delete in I; apply filter_In in I; tauto.
      * destruct (IH _ _ _ _ H Hin) as [E|I]; [auto|].
        destruct (set_In _ _ _ _ _ I) as [I'|E]; [auto|].
        left; subst. destruct s; [reflexivity|].
        unfold js_length in L; simpl in L; discriminate.
Qed.

(** X22.  [parse] never gives a charset characters of its own: each
    charset of a parsed policy is empty or is the charset of that name in
    one of the two presets. *)
Theorem parse_charsets_of_presets (data : json) (pcp : PCP.t)
  (name : jsstring) (charset : list jsstring) :
  PCP.parse data = Some pcp ->
  In (name, charset) (PCP.charsets pcp) ->
  charset = [] \/
  In (name, charset) DEFAULT_CHARSETS \/
  In (name, charset) ALPHABET_CHARSETS.
Proof.
  unfold PCP.parse; intros H Hin.
  destruct data as [| | | | |data]; try discriminate.
  destruct (match present data (js "rules") with
            | Some (JArray l) => PCP.rules_from_json l
            | Some _ => None
            | None => option_map (fun r => [r]) (PCPRule._from_json (JObject data))
            end) as [rules|]; [|discriminate].
  assert (B : forall baseline,
            baseline = (if uses_alphabet_charset rules then ALPHABET_CHARSETS
                        else DEFAULT_CHARSETS) ->
            In (name, charset) baseline ->
            In (name, charset) DEFAULT_CHARSETS \/
            In (name, charset) ALPHABET_CHARSETS)
    by (intros baseline ->; destruct (uses_alphabet_charset rules); auto).
  destruct (present data (js "charsets")) as [[| | | | |entries]|];
    try discriminate.
  - destruct (PCP.apply_charsets _ entries) as [result|] eqn:A; [|discriminate].
    inversion H; subst; simpl in Hin.
    destruct (apply_charsets_entries _ _ _ _ _ A Hin) as [E|I]; [auto|].
    right; exact (B _ eq_refl I).
  - inversion H; subst; simpl in Hin. right; exact (B _ eq_refl Hin).
Qed.

Lemma parse_charsets_of_presets_witness :
  PCP.parse
    (JObject [(js "charsets",
               JObject [(js "lower", JString (js "xyz"));
                        (js "digits", JString [])]);
              (js "rules", JArray [JObject []])])
  = Some (PCP.mk [rule_of_min_length 1]
            [(js "upper", Set_of_string ascii_uppercase);
             (js "digits", []);
             (js "symbols", Set_of_string symbols)]) /\
  (@nil jsstring = [] \/
   In (js "digits", []) DEFAULT_CHARSETS \/
   In (js "digits", []) ALPHABET_CHARSETS).
Proof.
  split; [vm_compute; reflexivity|].
  apply (parse_charsets_of_presets
           (JObject [(js "charsets",
                      JObject [(js "lower", JString (js "xyz"));
                               (js "digits", JString [])]);
                     (js "rules", JArray [JObject []])])
           (PCP.mk [rule_of_min_length 1]
              [(js "upper", Set_of_string ascii_uppercase);
               (js "digits", []);
               (js "symbols", Set_of_string symbols)])
           (js "digits") []).
  - vm_compute; reflexivity.
  - vm_compute; right; left; reflexivity.
Defined.

(** X23.  For a table without a charset named [size], the output of
    [stringify] does not depend on the table: it is the rule, for a
    policy of one rule, and the object [{rules: [...]}] otherwise.  For
    a table with a charset named [size] the output has a [charsets]
    property beside [rules]. *)
Theorem stringify_rules_only (rules : list PCPRule.t)
  (charsets : list (jsstring * list jsstring)) :
  (get charsets (js "size") = None ->
   PCP.stringify (PCP.mk rules charsets)
   = match rules with
     | [rule] => to_json_rule rule
     | _ => JObject [(js "rules", JArray (map to_json_rule rules))]
     end) /\
  (get charsets (js "size") <> None ->
   exists output_charsets,
     PCP.stringify (PCP.mk rules charsets)
     = JObject [(js "charsets", JObject output_charsets);
                (js "rules", JArray (map to_json_rule rules))]).
Proof.
  unfold PCP.stringify; simpl PCP.charsets; simpl PCP.rules.
  destruct (areCharsetsEqual_presets charsets) as [Y N].
  split; intros H.
  - destruct (Y H) as [E _]; rewrite E.
    destruct rules as [|rule [|rule' rules]]; reflexivity.
  - destruct (N H) as [E1 E2]; rewrite E1, E2.
    eexists; reflexivity.
Qed.

Lemma stringify_rules_only_witness :
  (get (PCP.charsets abc_policy) (js "size") = None ->
   PCP.stringify (PCP.mk [rule_of_min_length 1] (PCP.charsets abc_policy))
   = to_json_rule (rule_of_min_length 1)) /\
  (get (PCP.charsets abc_policy) (js "size") <> None ->
   exists output_charsets,
     PCP.stringify (PCP.mk [rule_of_min_length 1] (PCP.charsets abc_policy))
     = JObject [(js "charsets", JObject output_charsets);
                (js "rules",
                  JArray (map to_json_rule [rule_of_min_length 1]))]).
Proof.
  apply (stringify_rules_only [rule_of_min_length 1]
           (PCP.charsets abc_policy)).
Defined.
(** ** Further properties: the round trip through JSON *)

Lemma get_absent {V} (obj : list (jsstring * V)) (key : jsstring) :
  ~ In key (map fst obj) -> get obj key = None.
Proof.
  induction obj as [|[k v] obj IH]; simpl; intros H; [reflexivity|].
  destruct (str_eqb k key) eqn:E.
  - apply str_eqb_eq in E; subst; exfalso; auto.
  - apply IH; auto.
Qed.

(** Reading a property of an object literal: the properties whose value
    is [undefined] are not there. *)
Lemma get_object_fields (fields : list (jsstring * option json))
  (key : jsstring) :
  NoDup (map fst fields) ->
  get (flat_map
         (fun kv =>
            match snd kv with
            | Some v => [(fst kv, v)]
            | None => []
            end)
         fields) key
  = match get fields key with
    | Some o => o
    | None => None
    end.
Proof.
  induction fields as [|[k o] fields IH]; simpl; intros N; [reflexivity|].
  inversion N as [|? ? Hnot N']; subst.
  destruct o as [v|]; simpl.
  - destruct (str_eqb k key); [reflexivity | exact (IH N')].
  - rewrite (IH N').
    destruct (str_eqb k key) eqn:E; [|reflexivity].
    apply str_eqb_eq in E; subst.
    rewrite (get_absent _ _ Hnot); reflexivity.
Qed.

Lemma strings_of_map (s : list jsstring) : strings_of (map JString s) = Some s.
Proof. induction s as [|x s IH]; simpl; [|rewrite IH]; reflexivity. Qed.

Lemma numbers_of_map (l : list number) :
  Forall written_as_number l -> numbers_of (map number_to_json l) = Some l.
Proof.
  induction 1 as [|x l [z [-> R]] _ IH]; simpl; [|rewrite IH, R]; reflexivity.
Qed.

Section ReadBack.
Context {A : Type} (element : A -> json) (read : json -> option (list A)).
Context (written : list A -> Prop).
Hypothesis read_array :
  forall s, written s -> NoDup s -> read (JArray (map element s)) = Some s.
Variable fields : list (jsstring * option json).
Hypothesis distinct : NoDup (map fst fields).

Local Abbreviation data :=
  (flat_map
     (fun kv : jsstring * option json =>
        match snd kv with
        | Some v => [(fst kv, v)]
        | None => []
        end)
     fields).

(** A [Set] that was written is read back. *)
Lemma optional_set_written (key : jsstring) (value : option (list A)) :
  get fields key = Some (to_json_set element value) ->
  written_as_array value ->
  match value with Some s => written s | None => True end ->
  optional_set read data key = Some value.
Proof.
  intros G W V. unfold optional_set, present.
  rewrite (get_object_fields fields key distinct), G.
  destruct value as [s|]; simpl; [|reflexivity].
  destruct W as [Hne N].
  destruct s as [|x s]; [contradiction|].
  unfold to_json_set, size.
  change (Z.of_nat (length (x :: s)) >? 0) with true.
  cbn [truthy]. rewrite (read_array _ V N); reflexivity.
Qed.

(** A number that was written is read back. *)
Lemma optional_number_written (key : jsstring) (value : option number) :
  get fields key = Some (to_json_number value) ->
  written_if_set value ->
  optional_number data key = Some value.
Proof.
  intros G W. unfold optional_number.
  rewrite (get_object_fields fields key distinct), G.
  destruct value as [v|]; [|reflexivity].
  destruct W as [z [-> R]]; simpl; rewrite R; reflexivity.
Qed.
End ReadBack.

Lemma Set_of_strings_array (s : list jsstring) :
  NoDup s -> Set_of_strings (JArray (map JString s)) = Some s.
Proof.
  intros N; unfold Set_of_strings.
  rewrite strings_of_map; simpl.
  rewrite (new_Set_fixed str_eqb str_eqb_eq s N); reflexivity.
Qed.

Lemma Set_of_numbers_array (l : list number) :
  Forall written_as_number l -> NoDup l ->
  Set_of_numbers (JArray (map number_to_json l)) = Some l.
Proof.
  intros F N; unfold Set_of_numbers.
  rewrite (numbers_of_map l F); simpl.
  rewrite (new_Set_fixed same_value_zero same_value_zero_eq l N); reflexivity.
Qed.

(** The properties of the object that [to_json] makes of a charset
    requirement. *)
Lemma charset_requirement_fields (a b c d e : option json) :
  let fields :=
    [ (js "min_required", a); (js "max_allowed", b);
      (js "max_consecutive", c); (js "required_locations", d);
      (js "prohibited_locations", e) ] in
  NoDup (map fst fields) /\
  get fields (js "min_required") = Some a /\
  get fields (js "max_allowed") = Some b /\
  get fields (js "max_consecutive") = Some c /\
  get fields (js "required_locations") = Some d /\
  get fields (js "prohibited_locations") = Some e.
Proof.
  split; [vm_compute; distinct_literals | repeat split; reflexivity].
Qed.

Lemma charset_requirement_round_trip (requirements : PCPCharsetRequirement.t) :
  plain_requirement requirements ->
  PCPCharsetRequirement._from_json (to_json_charset_requirement requirements)
  = Some requirements.
Proof.
  intros (W1 & W2 & W3 & Fr & Fp & Wr & Wp).
  unfold to_json_charset_requirement, object, PCPCharsetRequirement._from_json.
  destruct (charset_requirement_fields
              (to_json_number (PCPCharsetRequirement.min_required requirements))
              (to_json_number (PCPCharsetRequirement.max_allowed requirements))
              (to_json_number
                 (PCPCharsetRequirement.max_consecutive requirements))
              (to_json_set number_to_json
                 (PCPCharsetRequirement.required_locations requirements))
              (to_json_set number_to_json
                 (PCPCharsetRequirement.prohibited_locations requirements)))
    as (N & G1 & G2 & G3 & G4 & G5).
  rewrite (optional_set_written number_to_json Set_of_numbers _
             Set_of_numbers_array _ N _ _ G4 Wr Fr).
  rewrite (optional_set_written number_to_json Set_of_numbers _
             Set_of_numbers_array _ N _ _ G5 Wp Fp).
  rewrite (optional_number_written _ N _ _ G1 W1).
  rewrite (optional_number_written _ N _ _ G2 W2).
  rewrite (optional_number_written _ N _ _ G3 W3).
  destruct requirements; reflexivity.
Qed.

Lemma subset_requirement_round_trip (requirement : PCPSubsetRequirement.t) :
  written_as_number (PCPSubsetRequirement.count requirement) ->
  PCPSubsetRequirement.options requirement = None ->
  PCPSubsetRequirement._from_json (to_json_subset_requirement requirement)
  = Some requirement.
Proof.
  destruct requirement as [count options].
  cbn [PCPSubsetRequirement.count PCPSubsetRequirement.options].
  intros [z [-> R]] ->.
  cbn -[round_to_double]. rewrite R; reflexivity.
Qed.

Lemma charset_requirements_round_trip
  (reqs : list (jsstring * PCPCharsetRequirement.t)) :
  Forall (fun kv => plain_requirement (snd kv)) reqs ->
  PCPRule.charset_requirements_from_json
    (map (fun kv => (fst kv, to_json_charset_requirement (snd kv))) reqs)
  = Some reqs.
Proof.
  induction 1 as [|[key requirements] reqs Hp _ IH]; [reflexivity|].
  cbn [map PCPRule.charset_requirements_from_json fst snd].
  rewrite (charset_requirement_round_trip requirements Hp), IH; reflexivity.
Qed.

(** The properties of the object that [to_json] makes of a rule. *)
Lemma rule_fields (a b c d e f g : option json) :
  let fields :=
    [ (js "min_length", a); (js "max_length", b); (js "max_consecutive", c);
      (js "prohibited_substrings", d); (js "require", e);
      (js "require_subset", f); (js "charset_requirements", g) ] in
  NoDup (map fst fields) /\
  get fields (js "min_length") = Some a /\
  get fields (js "max_length") = Some b /\
  get fields (js "max_consecutive") = Some c /\
  get fields (js "prohibited_substrings") = Some d /\
  get fields (js "require") = Some e /\
  get fields (js "require_subset") = Some f /\
  get fields (js "charset_requirements") = Some g /\
  get fields (js "rules") = None /\
  get fields (js "charsets") = None.
Proof.
  split; [vm_compute; distinct_literals | repeat split; reflexivity].
Qed.

Lemma rule_round_trip (rule : PCPRule.t) :
  plain_rule rule ->
  PCPRule._from_json (to_json_rule rule) = Some rule.
Proof.
  intros (Wmin & Wmax & Wcon & Ws & Wr & Hsub & Hreqs).
  unfold to_json_rule, object, PCPRule._from_json.
  destruct (rule_fields
              (Some (number_to_json (PCPRule.min_length rule)))
              (to_json_number (PCPRule.max_length rule))
              (to_json_number (PCPRule.max_consecutive rule))
              (to_json_set JString (PCPRule.prohibited_substrings rule))
              (to_json_set JString (PCPRule.require rule))
              (option_map to_json_subset_requirement
                 (PCPRule.require_subset rule))
              (option_map
                 (fun reqs =>
                    JObject
                      (map
                         (fun kv =>
                            (fst kv, to_json_charset_requirement (snd kv)))
                         reqs))
                 (PCPRule.charset_requirements rule)))
    as (N & G1 & G2 & G3 & G4 & G5 & G6 & G7 & _ & _).
  rewrite (optional_set_written JString Set_of_strings (fun _ => True)
             (fun s _ => Set_of_strings_array s) _ N _ _ G4 Ws
             ltac:(destruct (PCPRule.prohibited_substrings rule); exact I)).
  rewrite (optional_set_written JString Set_of_strings (fun _ => True)
             (fun s _ => Set_of_strings_array s) _ N _ _ G5 Wr
             ltac:(destruct (PCPRule.require rule); exact I)).
  rewrite (optional_number_written _ N _ _ G2 Wmax).
  rewrite (optional_number_written _ N _ _ G3 Wcon).
  unfold present.
  rewrite !(get_object_fields _ _ N), G1, G6, G7.
  destruct rule as [minl maxl maxc subs req rs creqs].
  cbn [PCPRule.min_length PCPRule.max_length PCPRule.max_consecutive
       PCPRule.prohibited_substrings PCPRule.require PCPRule.require_subset
       PCPRule.charset_requirements] in *.
  destruct Wmin as [zmin [-> Rmin]]. cbn [number_to_json]. rewrite Rmin.
  assert (S : forall r, rs = Some r ->
                PCPSubsetRequirement._from_json (to_json_subset_requirement r)
                = Some r)
    by (intros r ->; destruct Hsub as [Wc Ho];
        exact (subset_requirement_round_trip r Wc Ho)).
  assert (C : forall reqs, creqs = Some reqs ->
                PCPRule.charset_requirements_from_json
                  (map (fun kv => (fst kv, to_json_charset_requirement (snd kv)))
                     reqs) = Some reqs)
    by (intros reqs ->; exact (charset_requirements_round_trip reqs Hreqs)).
  destruct rs as [r|]; cbn [option_map].
  - change (truthy (to_json_subset_requirement r)) with true.
    cbv iota. rewrite (S r eq_refl). cbn [option_map].
    destruct creqs as [reqs|]; cbn [option_map truthy];
      [rewrite (C reqs eq_refl)|]; reflexivity.
  - destruct creqs as [reqs|]; cbn [option_map truthy];
      [rewrite (C reqs eq_refl)|]; reflexivity.
Qed.

Lemma rules_round_trip (rules : list PCPRule.t) :
  Forall plain_rule rules ->
  PCP.rules_from_json (map to_json_rule rules) = Some rules.
Proof.
  induction 1 as [|rule rules Hp _ IH]; [reflexivity|].
  cbn [map PCP.rules_from_json].
  rewrite (rule_round_trip rule Hp), IH; reflexivity.
Qed.

(** X24.  The round trip.  For a policy whose table has no charset
    named [size] and whose rules have finite numbers, no empty [Set] and
    no options in [require_subset], [parse] of [stringify] gives back
    the rules, over the preset that [parse] selects for them (the
    alphabet preset when a rule names [alphabet], the default preset
    otherwise); it gives back the policy when that preset is its table. *)
Theorem parse_stringify (pcp : PCP.t) :
  get (PCP.charsets pcp) (js "size") = None ->
  Forall plain_rule (PCP.rules pcp) ->
  PCP.parse (PCP.stringify pcp)
  = Some (PCP.mk (PCP.rules pcp)
            (if uses_alphabet_charset (PCP.rules pcp) then ALPHABET_CHARSETS
             else DEFAULT_CHARSETS)) /\
  (PCP.charsets pcp
   = (if uses_alphabet_charset (PCP.rules pcp) then ALPHABET_CHARSETS
      else DEFAULT_CHARSETS) ->
   PCP.parse (PCP.stringify pcp) = Some pcp).
Proof.
  destruct pcp as [rules charsets].
  cbn [PCP.rules PCP.charsets]. intros Hsize F.
  assert (G : PCP.parse (PCP.stringify (PCP.mk rules charsets))
              = Some (PCP.mk rules
                        (if uses_alphabet_charset rules then ALPHABET_CHARSETS
                         else DEFAULT_CHARSETS)));
    [|split; [exact G | intros ->; exact G]].
  unfold PCP.stringify. cbn [PCP.rules PCP.charsets].
  destruct (proj1 (areCharsetsEqual_presets charsets) Hsize) as [E _].
  rewrite E. cbn [orb].
  assert (W : PCP.parse
                (object [(js "rules", Some (JArray (map to_json_rule rules)))])
              = Some (PCP.mk rules
                        (if uses_alphabet_charset rules then ALPHABET_CHARSETS
                         else DEFAULT_CHARSETS))).
  { unfold PCP.parse, object, present.
    cbn [flat_map snd fst app].
    change (get [(js "rules", JArray (map to_json_rule rules))] (js "rules"))
      with (Some (JArray (map to_json_rule rules))).
    change (get [(js "rules", JArray (map to_json_rule rules))]
              (js "charsets")) with (@None json).
    cbn [truthy]. rewrite (rules_round_trip rules F). reflexivity. }
  destruct rules as [|rule [|rule' rules]]; [exact W | | exact W].
  inversion F as [|? ? Hp _]; subst.
  unfold PCP.parse, to_json_rule, object, present.
  destruct (rule_fields
              (Some (number_to_json (PCPRule.min_length rule)))
              (to_json_number (PCPRule.max_length rule))
              (to_json_number (PCPRule.max_consecutive rule))
              (to_json_set JString (PCPRule.prohibited_substrings rule))
              (to_json_set JString (PCPRule.require rule))
              (option_map to_json_subset_requirement
                 (PCPRule.require_subset rule))
              (option_map
                 (fun reqs =>
                    JObject
                      (map
                         (fun kv =>
                            (fst kv, to_json_charset_requirement (snd kv)))
                         reqs))
                 (PCPRule.charset_requirements rule)))
    as (N & _ & _ & _ & _ & _ & _ & _ & G8 & G9).
  rewrite !(get_object_fields _ _ N), G8, G9.
  pose proof (rule_round_trip rule Hp) as R.
  unfold to_json_rule, object in R. rewrite R.
  reflexivity.
Qed.

Lemma parse_stringify_witness :
  PCP.parse (PCP.stringify two_rule_policy)
  = Some (PCP.mk (PCP.rules two_rule_policy)
            (if uses_alphabet_charset (PCP.rules two_rule_policy)
             then ALPHABET_CHARSETS else DEFAULT_CHARSETS)) /\
  (PCP.charsets two_rule_policy
   = (if uses_alphabet_charset (PCP.rules two_rule_policy)
      then ALPHABET_CHARSETS else DEFAULT_CHARSETS) ->
   PCP.parse (PCP.stringify two_rule_policy) = Some two_rule_policy).
Proof.
  apply (parse_stringify two_rule_policy).
  - reflexivity.
  - unfold two_rule_policy, PCP.new, plain_rule, plain_requirement,
      written_as_number, written_if_set, written_as_numbers,
      written_as_array; simpl.
    repeat first
      [ exact I | reflexivity | discriminate
      | (eexists; split; reflexivity)
      | apply Forall_cons | apply Forall_nil
      | apply NoDup_cons | apply NoDup_nil
      | solve [simpl; intuition discriminate] | split ].
Defined.

